(** * ParcelTrackerService: the parcel store and the parcel service

    A shallow embedding of [src/parcel.go] (type [ParcelStore]) and
    [src/main.go] (type [ParcelService]).  The Go methods talk to a SQL
    database through [database/sql], read the wall clock and print to the
    console; here these three effects are fields of an explicit [World]
    that every method threads through. *)

From Stdlib Require Import ZArith Ascii String DecimalString.
From stdpp Require Import gmap strings list fin_maps relations.

Local Open Scope string_scope.
Local Open Scope Z_scope.

(** ** Data model (main.go, lines 11-25) *)

Definition ParcelStatusRegistered : string := "registered".
Definition ParcelStatusSent : string := "sent".
Definition ParcelStatusDelivered : string := "delivered".

Record Parcel := mkParcel {
  Number : Z;
  Client : Z;
  Status : string;
  Address : string;
  CreatedAt : string
}.

(** The zero value [Parcel{}] of Go. *)
Definition Parcel_zero : Parcel := mkParcel 0 0 "" "" "".

(** Go's [error] interface, as far as this program can observe it: [nil]
    is [None]; [sql.ErrNoRows] is what [Row.Scan] answers on an empty
    result; every other failure comes from the driver. *)
Inductive error : Type :=
  | ErrNoRows
  | ErrDriver (msg : string).

#[global] Instance error_eq_dec : EqDecision error.
Proof. solve_decision. Defined.

(** ** The environment *)

(** Modelled from the spec: the schema of table [parcel] (section 6); the
    CREATE TABLE statement is not part of the sources.  [number] is the
    store-assigned integer primary key, so the table is a finite map from
    [number] to the remaining four columns. *)
Record Row := mkRow {
  row_client : Z;
  row_status : string;
  row_address : string;
  row_created_at : string
}.

(** What [time.Now().UTC()] reads: a civil date and time of day. *)
Record UTCTime := mkUTCTime {
  year : N; month : N; day : N; hour : N; minute : N; second : N
}.

Record World := mkWorld {
  parcel_table : gmap Z Row;      (* rows of table parcel, by number *)
  parcel_seq : Z;                 (* largest number ever assigned *)
  faults : list (option string);  (* outcome of the coming driver calls *)
  clock : UTCTime;                (* the wall clock *)
  stdout : list string            (* what was printed, oldest first *)
}.

Definition set_table (t : gmap Z Row) (w : World) : World :=
  mkWorld t (parcel_seq w) (faults w) (clock w) (stdout w).
Definition set_seq (n : Z) (w : World) : World :=
  mkWorld (parcel_table w) n (faults w) (clock w) (stdout w).
Definition set_faults (fs : list (option string)) (w : World) : World :=
  mkWorld (parcel_table w) (parcel_seq w) fs (clock w) (stdout w).
Definition set_clock (t : UTCTime) (w : World) : World :=
  mkWorld (parcel_table w) (parcel_seq w) (faults w) t (stdout w).
Definition set_stdout (out : list string) (w : World) : World :=
  mkWorld (parcel_table w) (parcel_seq w) (faults w) (clock w) out.

(** A Go method is a state transformer on the world. *)
Definition IO (A : Type) : Type := World → A * World.

Definition ret {A} (a : A) : IO A := λ w, (a, w).
Definition bind {A B} (m : IO A) (f : A → IO B) : IO B :=
  λ w, let (a, w') := m w in f a w'.

Notation "'let*' x ':=' m 'in' k" := (bind m (λ x, k))
  (at level 10, x pattern, m at level 100, k at level 200).

(** ** Formatting: [fmt] verbs and [time.RFC3339] *)

Definition nl : string := String "010"%char "".

(** The verb [%d]. *)
Definition fmt_d (z : Z) : string := NilZero.string_of_int (Z.to_int z).

Fixpoint zeros (k : nat) : string :=
  match k with O => "" | S k' => String "0"%char (zeros k') end.

Definition pad (width : nat) (n : N) : string :=
  let s := NilZero.string_of_uint (N.to_uint n) in
  zeros (width - String.length s) +:+ s.

(** [t.Format(time.RFC3339)] for a time in UTC: layout
    2006-01-02T15:04:05Z07:00, whose zone part prints as Z. *)
Definition format_RFC3339 (t : UTCTime) : string :=
  pad 4 (year t) +:+ "-" +:+ pad 2 (month t) +:+ "-" +:+ pad 2 (day t)
  +:+ "T" +:+ pad 2 (hour t) +:+ ":" +:+ pad 2 (minute t) +:+ ":"
  +:+ pad 2 (second t) +:+ "Z".

Definition time_Now_UTC : IO UTCTime := λ w, (clock w, w).

Definition fmt_Print (s : string) : IO unit :=
  λ w, (tt, set_stdout (stdout w ++ [s]) w).

(** ** The database driver *)

(** Each call of [database/sql] that returns an [error] takes its outcome
    from the fault schedule: [Some msg] is a driver failure, [None] (or an
    exhausted schedule) lets the call go through. *)
Definition driver_err : IO (option error) :=
  λ w, match faults w with
       | [] => (None, w)
       | f :: fs => (ErrDriver <$> f, set_faults fs w)
       end.

(** Go's [int] and the store's row numbers are 64-bit: the store refuses
    to assign a number beyond this one, a write failure of Add, so the
    conversion [int(id)] in Add loses nothing. *)
Definition max_rowid : Z := 2 ^ 63 - 1.

(** Modelled from the spec: how the store assigns [number] (sections 3
    and 6: store-assigned, unique for the lifetime of the store); the
    schema is not part of the sources.  This is SQLite's rule for an
    AUTOINCREMENT key: one more than the largest number ever present. *)
Definition next_number (w : World) : Z :=
  1 + foldr Z.max (parcel_seq w) (map_to_list (parcel_table w)).*1.

(** INSERT INTO parcel (client, status, address, created_at) VALUES ...;
    the answer carries the new row's number. *)
Definition Exec_insert (r : Row) : IO (Z * option error) :=
  let* err := driver_err in
  match err with
  | Some e => ret (0, Some e)
  | None => λ w,
      let n := next_number w in
      if max_rowid <? n then ((0, Some (ErrDriver "database or disk is full")), w)
      else ((n, None), set_seq n (set_table (<[n := r]> (parcel_table w)) w))
  end.

Definition LastInsertId (res : Z) : IO (Z * option error) :=
  let* err := driver_err in
  match err with
  | Some e => ret (0, Some e)
  | None => ret (res, None)
  end.

(** UPDATE parcel SET ... WHERE ... *)
Definition Exec_update (set : Row → Row) (cond : Z → Row → bool)
  : IO (option error) :=
  let* err := driver_err in
  match err with
  | Some e => ret (Some e)
  | None => λ w,
      (None, set_table
               (map_imap (λ k r, Some (if cond k r then set r else r))
                         (parcel_table w)) w)
  end.

(** DELETE FROM parcel WHERE ... *)
Definition Exec_delete (cond : Z → Row → bool) : IO (option error) :=
  let* err := driver_err in
  match err with
  | Some e => ret (Some e)
  | None => λ w,
      (None, set_table
               (map_imap (λ k r, if cond k r then None else Some r)
                         (parcel_table w)) w)
  end.

Definition parcel_of_row (k : Z) (r : Row) : Parcel :=
  mkParcel k (row_client r) (row_status r) (row_address r) (row_created_at r).

Definition row_of_parcel (p : Parcel) : Row :=
  mkRow (Client p) (Status p) (Address p) (CreatedAt p).

(** SELECT number, client, status, address, created_at FROM parcel
    WHERE number = :number, followed by [Row.Scan] into [p]. *)
Definition QueryRow_Scan (number : Z) (p : Parcel) : IO (Parcel * option error) :=
  let* err := driver_err in
  match err with
  | Some e => ret (p, Some e)
  | None => λ w,
      match parcel_table w !! number with
      | None => ((p, Some ErrNoRows), w)
      | Some r => ((parcel_of_row number r, None), w)
      end
  end.

(** SELECT number, client, status, address, created_at FROM parcel
    WHERE ...: the rows the cursor will iterate over. *)
Definition Query (cond : Z → Row → bool) : IO (list Parcel * option error) :=
  let* err := driver_err in
  match err with
  | Some e => ret ([], Some e)
  | None => λ w,
      (((λ kr, parcel_of_row kr.1 kr.2) <$>
          filter (λ kr, cond kr.1 kr.2) (map_to_list (parcel_table w)), None), w)
  end.

(** [rows.Scan] of the current row. *)
Definition Rows_Scan (row : Parcel) : IO (Parcel * option error) :=
  let* err := driver_err in
  match err with
  | Some e => ret (Parcel_zero, Some e)
  | None => ret (row, None)
  end.

Definition Rows_Err : IO (option error) := driver_err.

(** ** The record store (parcel.go) *)

Definition Add (p : Parcel) : IO (Z * option error) :=
  let* (res, err) := Exec_insert (row_of_parcel p) in
  match err with
  | Some e => ret (0, Some e)
  | None =>
      let* (id, err) := LastInsertId res in
      match err with
      | Some e => ret (0, Some e)
      | None => ret (id, None)
      end
  end.

Definition Get (number : Z) : IO (Parcel * option error) :=
  let p := Parcel_zero in
  let* (p, err) := QueryRow_Scan number p in
  match err with
  | Some e => ret (p, Some e)
  | None => ret (p, None)
  end.

(** The loop [for rows.Next() { ... }] over the rows still to come;
    [res] is the slice built so far. *)
Fixpoint scan_rows (rows : list Parcel) (res : list Parcel)
  : IO (list Parcel * option error) :=
  match rows with
  | [] => ret (res, None)
  | row :: rows' =>
      let* (p, err) := Rows_Scan row in
      match err with
      | Some e => ret ([], Some e)
      | None => scan_rows rows' (res ++ [p])
      end
  end.

Definition GetByClient (client : Z) : IO (list Parcel * option error) :=
  let* (rows, err) := Query (λ _ r, row_client r =? client) in
  match err with
  | Some e => ret ([], Some e)
  | None =>
      let* (res, err) := scan_rows rows [] in
      match err with
      | Some e => ret ([], Some e)
      | None =>
          let* err := Rows_Err in
          match err with
          | Some e => ret ([], Some e)
          | None => ret (res, None)
          end
      end
  end.

Definition with_status (status : string) (r : Row) : Row :=
  mkRow (row_client r) status (row_address r) (row_created_at r).

Definition with_address (address : string) (r : Row) : Row :=
  mkRow (row_client r) (row_status r) address (row_created_at r).

(** UPDATE parcel SET status = :status WHERE number = :number *)
Definition SetStatus (number : Z) (status : string) : IO (option error) :=
  Exec_update (with_status status) (λ k _, k =? number).

(** UPDATE parcel SET address = :address
    WHERE number = :number AND status = :status *)
Definition SetAddress (number : Z) (address : string) : IO (option error) :=
  Exec_update (with_address address)
    (λ k r, (k =? number) && String.eqb (row_status r) ParcelStatusRegistered).

(** DELETE FROM parcel WHERE number = :number AND status = :status *)
Definition Delete (number : Z) : IO (option error) :=
  Exec_delete
    (λ k r, (k =? number) && String.eqb (row_status r) ParcelStatusRegistered).

(** ** The parcel service (main.go) *)

Definition Register (client : Z) (address : string) : IO (Parcel * option error) :=
  let* now := time_Now_UTC in
  let parcel :=
    mkParcel 0 client ParcelStatusRegistered address (format_RFC3339 now) in
  let* (id, err) := Add parcel in
  match err with
  | Some e => ret (parcel, Some e)
  | None =>
      let parcel :=
        mkParcel id (Client parcel) (Status parcel) (Address parcel)
                 (CreatedAt parcel) in
      let* _ := fmt_Print
        ("Новая посылка № " +:+ fmt_d (Number parcel) +:+ " на адрес "
         +:+ Address parcel +:+ " от клиента с идентификатором "
         +:+ fmt_d (Client parcel) +:+ " зарегистрирована "
         +:+ CreatedAt parcel +:+ nl) in
      ret (parcel, None)
  end.

Definition parcel_line (parcel : Parcel) : string :=
  "Посылка № " +:+ fmt_d (Number parcel) +:+ " на адрес "
  +:+ Address parcel +:+ " от клиента с идентификатором "
  +:+ fmt_d (Client parcel) +:+ " зарегистрирована "
  +:+ CreatedAt parcel +:+ ", статус " +:+ Status parcel +:+ nl.

(** The loop [for _, parcel := range parcels]. *)
Fixpoint print_parcels (parcels : list Parcel) : IO unit :=
  match parcels with
  | [] => ret tt
  | parcel :: rest =>
      let* _ := fmt_Print (parcel_line parcel) in print_parcels rest
  end.

Definition PrintClientParcels (client : Z) : IO (option error) :=
  let* (parcels, err) := GetByClient client in
  match err with
  | Some e => ret (Some e)
  | None =>
      let* _ := fmt_Print ("Посылки клиента " +:+ fmt_d client +:+ ":" +:+ nl) in
      let* _ := print_parcels parcels in
      let* _ := fmt_Print nl in
      ret None
  end.

Definition status_line (number : Z) (nextStatus : string) : string :=
  "У посылки № " +:+ fmt_d number +:+ " новый статус: " +:+ nextStatus +:+ nl.

Definition NextStatus (number : Z) : IO (option error) :=
  let* (parcel, err) := Get number in
  match err with
  | Some e => ret (Some e)
  | None =>
      let nextStatus := "" in
      let switch :=
        if String.eqb (Status parcel) ParcelStatusRegistered then
          inr ParcelStatusSent
        else if String.eqb (Status parcel) ParcelStatusSent then
          inr ParcelStatusDelivered
        else if String.eqb (Status parcel) ParcelStatusDelivered then
          inl None                       (* return nil *)
        else inr nextStatus in
      match switch with
      | inl result => ret result
      | inr nextStatus =>
          let* _ := fmt_Print (status_line number nextStatus) in
          SetStatus number nextStatus
      end
  end.

Definition ChangeAddress (number : Z) (address : string) : IO (option error) :=
  SetAddress number address.

Definition Service_Delete (number : Z) : IO (option error) :=
  Delete number.

(** [err.Error()], as [fmt.Println(err)] prints it. *)
Definition error_string (e : error) : string :=
  match e with
  | ErrNoRows => "sql: no rows in result set"
  | ErrDriver msg => msg
  end.

(** The recurring [if err != nil { fmt.Println(err); return }] of [main];
    [rest] is what follows it. *)
Definition or_stop (err : option error) (rest : IO unit) : IO unit :=
  match err with
  | Some e => fmt_Print (error_string e +:+ nl)
  | None => rest
  end.

(** The demonstration in [main], on a database handle that is open. *)
Definition main : IO unit :=
  let client := 1 in
  let address := "Псков, д. Пушкина, ул. Колотушкина, д. 5" in
  let* (p, err) := Register client address in
  or_stop err (
  let newAddress := "Саратов, д. Верхние Зори, ул. Козлова, д. 25" in
  let* err := ChangeAddress (Number p) newAddress in
  or_stop err (
  let* err := NextStatus (Number p) in
  or_stop err (
  let* err := PrintClientParcels client in
  or_stop err (
  let* err := Service_Delete (Number p) in
  or_stop err (
  let* err := PrintClientParcels client in
  or_stop err (
  let* (p, err) := Register client address in
  or_stop err (
  let* err := Service_Delete (Number p) in
  or_stop err (
  let* err := PrintClientParcels client in
  or_stop err (ret tt))))))))).

(** ** Vocabulary of the statements *)

(** The outcome the schedule holds for the next driver call. *)
Definition next_fault (w : World) : option string :=
  match faults w with [] => None | f :: _ => f end.

(** The world once that call has been made. *)
Definition tick (w : World) : World :=
  match faults w with [] => w | _ :: fs => set_faults fs w end.

(** The next driver call goes through. *)
Definition driver_ok (w : World) : Prop := next_fault w = None.

(** No coming driver call fails. *)
Definition healthy (w : World) : Prop := Forall (λ f, f = None) (faults w).

(** The status is one of the three the program knows. *)
Definition known_status (s : string) : Prop :=
  s = ParcelStatusRegistered ∨ s = ParcelStatusSent ∨ s = ParcelStatusDelivered.

(** registered is 0, sent is 1, delivered is 2. *)
Definition status_rank (s : string) : nat :=
  if String.eqb s ParcelStatusRegistered then 0%nat
  else if String.eqb s ParcelStatusSent then 1%nat
  else 2%nat.

(** The transition table of NextStatus, read off its switch: [None] is
    the early return on delivered, and a status outside the three falls
    through with the empty string. *)
Definition transition (s : string) : option string :=
  if String.eqb s ParcelStatusRegistered then Some ParcelStatusSent
  else if String.eqb s ParcelStatusSent then Some ParcelStatusDelivered
  else if String.eqb s ParcelStatusDelivered then None
  else Some "".

(** The guard of SetAddress and Delete: row [number] exists and is
    registered. *)
Definition registered_at (number : Z) (w : World) : Prop :=
  ∃ r, parcel_table w !! number = Some r ∧ row_status r = ParcelStatusRegistered.

(** The service's entry points, and one call of any of them in an
    environment (fault schedule and clock) that is free to change from one
    call to the next. *)
Inductive call : Type :=
  | CallRegister (client : Z) (address : string)
  | CallPrintClientParcels (client : Z)
  | CallNextStatus (number : Z)
  | CallChangeAddress (number : Z) (address : string)
  | CallDelete (number : Z).

Definition run_call (c : call) : IO (option error) :=
  match c with
  | CallRegister client address =>
      let* (_, err) := Register client address in ret err
  | CallPrintClientParcels client => PrintClientParcels client
  | CallNextStatus number => NextStatus number
  | CallChangeAddress number address => ChangeAddress number address
  | CallDelete number => Service_Delete number
  end.

Definition step (w w' : World) : Prop :=
  ∃ c fs t, w' = (run_call c (set_clock t (set_faults fs w))).2.

Definition empty_store (w : World) : Prop :=
  parcel_table w = ∅ ∧ parcel_seq w = 0.

Definition reachable (w : World) : Prop :=
  ∃ w0, empty_store w0 ∧ rtc step w0 w.

(** What a method that only reads the table leaves behind: everything as
    it was, except that some of the fault schedule was used up. *)
Definition frame (w w' : World) : Prop :=
  parcel_table w' = parcel_table w ∧ parcel_seq w' = parcel_seq w
  ∧ stdout w' = stdout w ∧ clock w' = clock w
  ∧ ∀ f, f ∈ faults w' → f ∈ faults w.

(** The rows of client [client], as parcels, in the order the table
    yields them. *)
Definition matching (client : Z) (t : gmap Z Row) : list Parcel :=
  (λ kr, parcel_of_row kr.1 kr.2) <$>
    filter (λ kr, row_client kr.2 =? client) (map_to_list t).

(** How a reading method ends: with the expected rows and nil, or with no
    rows and an error that the fault schedule held. *)
Definition read_outcome (w : World) (expected : list Parcel)
    (out : list Parcel * option error * World) : Prop :=
  frame w out.2
  ∧ (out.1 = (expected, None)
     ∨ ∃ msg, out.1 = ([], Some (ErrDriver msg)) ∧ Some msg ∈ faults w).

(** The world once Exec has inserted row [r]. *)
Definition inserted (r : Row) (w : World) : World :=
  set_seq (next_number w)
    (set_table (<[next_number w := r]> (parcel_table w)) (tick w)).

(** What one service call can do to a stored row. *)
Inductive row_step (r : Row) : option Row → Prop :=
  | row_kept : row_step r (Some r)
  | row_readdressed address :
      row_status r = ParcelStatusRegistered →
      row_step r (Some (with_address address r))
  | row_sent :
      row_status r = ParcelStatusRegistered →
      row_step r (Some (with_status ParcelStatusSent r))
  | row_delivered :
      row_status r = ParcelStatusSent →
      row_step r (Some (with_status ParcelStatusDelivered r))
  | row_deleted :
      row_status r = ParcelStatusRegistered →
      row_step r None.

Definition all_known (w : World) : Prop :=
  ∀ k r, parcel_table w !! k = Some r → known_status (row_status r).

(** Where a row of [w] can be after any number of service calls. *)
Definition row_later (r : Row) (o : option Row) : Prop :=
  match o with
  | None => row_status r = ParcelStatusRegistered
  | Some r' =>
      (status_rank (row_status r) ≤ status_rank (row_status r'))%nat
      ∧ (row_status r = ParcelStatusDelivered → r' = r)
  end.

(** ** Sample stores *)

(** A store holding parcel 1 of client 7, registered. *)
Definition one_registered : World :=
  mkWorld {[ 1 := mkRow 7 "registered" "Addr A" "2024-03-07T09:05:00Z" ]} 1
          [] (mkUTCTime 2024 3 7 9 5 0) [].

(** A store holding parcel 1 of client 7, already sent. *)
Definition one_sent : World :=
  mkWorld {[ 1 := mkRow 7 "sent" "Addr B" "2024-03-07T09:05:00Z" ]} 1
          [] (mkUTCTime 2024 3 7 9 5 0) [].

(** A store whose only row carries a status the program does not know. *)
Definition one_lost : World :=
  mkWorld {[ 1 := mkRow 7 "lost" "Addr A" "2024-03-07T09:05:00Z" ]} 1
          [] (mkUTCTime 2024 3 7 9 5 0) [].

(** A store holding parcel 1 of client 7, delivered. *)
Definition one_delivered : World :=
  mkWorld {[ 1 := mkRow 7 "delivered" "Addr B" "2024-03-07T09:05:00Z" ]} 1
          [] (mkUTCTime 2024 3 7 9 5 0) [].

(** The store of [one_registered] behind a driver that answers once and
    then fails. *)
Definition one_registered_failing : World :=
  set_faults [None; Some "disk I/O error"] one_registered.

(** A world extends a table when it still has every row of it. *)
Definition keeps (t : gmap Z Row) (w : World) : Prop :=
  ∀ k r, t !! k = Some r → parcel_table w !! k = Some r.

(** The driver answers from here on, the table is [t] and the number
    sequence stands at [s]. *)
Definition settled (w : World) (t : gmap Z Row) (s : Z) : Prop :=
  healthy w ∧ parcel_table w = t ∧ parcel_seq w = s.

(** An empty store, the driver answering. *)
Definition empty_world : World :=
  mkWorld ∅ 0 [] (mkUTCTime 2024 3 7 9 5 0) [].

Definition after_register : World :=
  (run_call (CallRegister 7 "Addr A") empty_world).2.

Definition after_advance : World :=
  (run_call (CallNextStatus 1) after_register).2.

(** * Properties *)

(** ** The driver *)

Lemma driver_err_eq w : driver_err w = (ErrDriver <$> next_fault w, tick w).
Proof. unfold driver_err, next_fault, tick. by destruct (faults w). Qed.

Lemma tick_table w : parcel_table (tick w) = parcel_table w.
Proof. unfold tick. by destruct (faults w). Qed.

Lemma tick_seq w : parcel_seq (tick w) = parcel_seq w.
Proof. unfold tick. by destruct (faults w). Qed.

Lemma tick_stdout w : stdout (tick w) = stdout w.
Proof. unfold tick. by destruct (faults w). Qed.

Lemma tick_clock w : clock (tick w) = clock w.
Proof. unfold tick. by destruct (faults w). Qed.

Lemma tick_faults w : faults (tick w) = tail (faults w).
Proof. unfold tick. by destruct (faults w) eqn:E; [rewrite E|]. Qed.

(** Projections of a world after driver calls and prints. *)
Ltac world_simpl :=
  repeat (progress (simpl; rewrite ?tick_table, ?tick_seq, ?tick_stdout, ?tick_clock)).

Lemma healthy_driver_ok w : healthy w → driver_ok w.
Proof.
  unfold healthy, driver_ok, next_fault.
  destruct (faults w); [done|]. by inversion 1.
Qed.

Lemma healthy_tick w : healthy w → healthy (tick w).
Proof.
  unfold healthy. rewrite tick_faults.
  destruct (faults w); [done|]. by inversion 1.
Qed.

Lemma next_fault_elem w msg : next_fault w = Some msg → Some msg ∈ faults w.
Proof.
  unfold next_fault. destruct (faults w); [done|].
  intros ->. apply list_elem_of_here.
Qed.

Lemma tick_faults_elem w f : f ∈ faults (tick w) → f ∈ faults w.
Proof.
  rewrite tick_faults. destruct (faults w); [done|].
  apply list_elem_of_further.
Qed.

(** ** The three statements on the table *)

Section table.
Context (t : gmap Z Row) (n : Z).

Lemma update_number (f : Row → Row) :
  map_imap (λ k r, Some (if k =? n then f r else r)) t = alter f n t.
Proof.
  apply map_eq; intros k.
  rewrite map_lookup_imap, lookup_alter.
  destruct (Z.eqb_spec k n) as [-> | Hne]; case_decide; try congruence;
    by destruct (t !! _).
Qed.

Lemma update_registered (f : Row → Row) :
  map_imap (λ k r, Some (if (k =? n) && String.eqb (row_status r) ParcelStatusRegistered
                         then f r else r)) t
  = match t !! n with
    | Some r => if String.eqb (row_status r) ParcelStatusRegistered
                then <[n := f r]> t else t
    | None => t
    end.
Proof.
  apply map_eq; intros k. rewrite map_lookup_imap.
  destruct (Z.eqb_spec k n) as [-> | Hne].
  - destruct (t !! n) as [r|] eqn:E; simpl; [|by rewrite E].
    destruct (String.eqb _ _); simpl; [by rewrite lookup_insert_eq|by rewrite E].
  - destruct (t !! n) as [r|]; [destruct (String.eqb _ _)|];
      rewrite ?lookup_insert_ne by done; simpl;
      destruct (t !! k); done.
Qed.

Lemma delete_registered :
  map_imap (λ k r, if (k =? n) && String.eqb (row_status r) ParcelStatusRegistered
                   then None else Some r) t
  = match t !! n with
    | Some r => if String.eqb (row_status r) ParcelStatusRegistered
                then delete n t else t
    | None => t
    end.
Proof.
  apply map_eq; intros k. rewrite map_lookup_imap.
  destruct (Z.eqb_spec k n) as [-> | Hne].
  - destruct (t !! n) as [r|] eqn:E; simpl; [|by rewrite E].
    destruct (String.eqb _ _); simpl; [by rewrite lookup_delete_eq|by rewrite E].
  - destruct (t !! n) as [r|]; [destruct (String.eqb _ _)|];
      rewrite ?lookup_delete_ne by done; simpl;
      destruct (t !! k); done.
Qed.
End table.

(** ** The store's methods, one driver call at a time *)

Lemma SetStatus_eq number status w :
  SetStatus number status w =
  match next_fault w with
  | Some msg => (Some (ErrDriver msg), tick w)
  | None => (None, set_table (alter (with_status status) number (parcel_table w))
                             (tick w))
  end.
Proof.
  unfold SetStatus, Exec_update, bind. rewrite driver_err_eq.
  destruct (next_fault w); simpl; [done|].
  by rewrite update_number, tick_table.
Qed.

Lemma SetAddress_eq number address w :
  SetAddress number address w =
  match next_fault w with
  | Some msg => (Some (ErrDriver msg), tick w)
  | None =>
      (None, set_table
               match parcel_table w !! number with
               | Some r => if String.eqb (row_status r) ParcelStatusRegistered
                           then <[number := with_address address r]> (parcel_table w)
                           else parcel_table w
               | None => parcel_table w
               end (tick w))
  end.
Proof.
  unfold SetAddress, Exec_update, bind. rewrite driver_err_eq.
  destruct (next_fault w); simpl; [done|].
  by rewrite update_registered, tick_table.
Qed.

Lemma Delete_eq number w :
  Delete number w =
  match next_fault w with
  | Some msg => (Some (ErrDriver msg), tick w)
  | None =>
      (None, set_table
               match parcel_table w !! number with
               | Some r => if String.eqb (row_status r) ParcelStatusRegistered
                           then delete number (parcel_table w)
                           else parcel_table w
               | None => parcel_table w
               end (tick w))
  end.
Proof.
  unfold Delete, Exec_delete, bind. rewrite driver_err_eq.
  destruct (next_fault w); simpl; [done|].
  by rewrite delete_registered, tick_table.
Qed.

Lemma Get_eq number w :
  Get number w =
  match next_fault w with
  | Some msg => ((Parcel_zero, Some (ErrDriver msg)), tick w)
  | None =>
      match parcel_table w !! number with
      | Some r => ((parcel_of_row number r, None), tick w)
      | None => ((Parcel_zero, Some ErrNoRows), tick w)
      end
  end.
Proof.
  unfold Get, QueryRow_Scan, bind. rewrite driver_err_eq.
  destruct (next_fault w); simpl; [done|].
  rewrite tick_table. by destruct (parcel_table w !! number).
Qed.

Lemma registered_at_iff number w :
  registered_at number w ↔
  ∃ r, parcel_table w !! number = Some r
       ∧ String.eqb (row_status r) ParcelStatusRegistered = true.
Proof.
  unfold registered_at. split; intros (r & Hr & Hs); exists r; split; try done.
  - by apply String.eqb_eq.
  - by apply String.eqb_eq in Hs.
Qed.

Lemma alter_present (f : Row → Row) (t : gmap Z Row) n r :
  t !! n = Some r → alter f n t = <[n := f r]> t.
Proof.
  intros Hr. apply map_eq; intros k.
  rewrite lookup_alter, lookup_insert. case_decide; [by rewrite Hr|done].
Qed.

(** ** NextStatus *)

Lemma NextStatus_fault number w msg :
  next_fault w = Some msg → NextStatus number w = (Some (ErrDriver msg), tick w).
Proof. intros Hf. unfold NextStatus, bind. by rewrite Get_eq, Hf. Qed.

Lemma NextStatus_absent number w :
  driver_ok w → parcel_table w !! number = None →
  NextStatus number w = (Some ErrNoRows, tick w).
Proof. intros Hok Hn. unfold NextStatus, bind. by rewrite Get_eq, Hok, Hn. Qed.

Lemma NextStatus_present number w r :
  driver_ok w → parcel_table w !! number = Some r →
  NextStatus number w =
  match transition (row_status r) with
  | None => (None, tick w)
  | Some s => SetStatus number s
                (set_stdout (stdout w ++ [status_line number s]) (tick w))
  end.
Proof.
  intros Hok Hn. unfold NextStatus, bind, transition.
  rewrite Get_eq, Hok, Hn. simpl.
  repeat (destruct (String.eqb _ _); [by rewrite ?tick_stdout|]).
  by rewrite tick_stdout.
Qed.

Lemma NextStatus_healthy number w r :
  healthy w → parcel_table w !! number = Some r →
  NextStatus number w =
  match transition (row_status r) with
  | None => (None, tick w)
  | Some s =>
      (None, set_table (<[number := with_status s r]> (parcel_table w))
               (set_stdout (stdout w ++ [status_line number s]) (tick (tick w))))
  end.
Proof.
  intros Hh Hn. rewrite (NextStatus_present _ _ r) by auto using healthy_driver_ok.
  destruct (transition _) as [s|]; [|done].
  rewrite SetStatus_eq.
  assert (next_fault (tick w) = None) as Hok2
    by (apply healthy_driver_ok, healthy_tick, Hh).
  unfold next_fault in *. simpl. rewrite Hok2.
  f_equal. simpl. rewrite tick_table, (alter_present _ _ _ r) by done.
  unfold tick at 1. simpl.
  destruct (faults (tick w)) eqn:E; unfold set_table, set_stdout, set_faults; simpl.
  - by rewrite !tick_seq, !tick_clock, (tick_faults (tick w)), E.
  - by rewrite !tick_seq, !tick_clock, (tick_faults (tick w)), E.
Qed.

Lemma NextStatus_table number w :
  parcel_table (NextStatus number w).2 = parcel_table w
  ∨ ∃ r s, parcel_table w !! number = Some r
           ∧ transition (row_status r) = Some s
           ∧ parcel_table (NextStatus number w).2
             = <[number := with_status s r]> (parcel_table w).
Proof.
  destruct (next_fault w) as [msg|] eqn:Hf.
  { left. rewrite (NextStatus_fault _ _ msg) by done. by world_simpl. }
  destruct (parcel_table w !! number) as [r|] eqn:Hn.
  2: { left. rewrite NextStatus_absent by done. by world_simpl. }
  rewrite (NextStatus_present _ _ r) by done.
  destruct (transition (row_status r)) as [s|] eqn:Ht.
  2: { left. by world_simpl. }
  rewrite SetStatus_eq.
  destruct (next_fault (set_stdout _ _)).
  - left. by world_simpl.
  - right. exists r, s. world_simpl. by rewrite (alter_present _ _ _ r).
Qed.

Lemma transition_known s :
  known_status s →
  (s = ParcelStatusRegistered ∧ transition s = Some ParcelStatusSent)
  ∨ (s = ParcelStatusSent ∧ transition s = Some ParcelStatusDelivered)
  ∨ (s = ParcelStatusDelivered ∧ transition s = None).
Proof. intros [-> | [-> | ->]]; auto. Qed.

Lemma transition_unknown s : ¬ known_status s → transition s = Some "".
Proof.
  intros Hk. unfold transition, known_status in *.
  destruct (String.eqb_spec s ParcelStatusRegistered); [tauto|].
  destruct (String.eqb_spec s ParcelStatusSent); [tauto|].
  destruct (String.eqb_spec s ParcelStatusDelivered); [tauto|done].
Qed.

(** C1: for a parcel present in the store, NextStatus picks the next status
    by the table registered to sent, sent to delivered, and hands it to
    SetStatus, which stores it; on a delivered parcel it writes nothing,
    prints nothing and returns nil. *)
Theorem NextStatus_follows_table (w : World) (number : Z) (r : Row) :
  parcel_table w !! number = Some r →
  healthy w →
  (row_status r = ParcelStatusRegistered →
     NextStatus number w
     = SetStatus number ParcelStatusSent
         (set_stdout (stdout w ++ [status_line number ParcelStatusSent]) (tick w))
     ∧ (NextStatus number w).1 = None
     ∧ parcel_table (NextStatus number w).2
       = <[number := with_status ParcelStatusSent r]> (parcel_table w))
  ∧ (row_status r = ParcelStatusSent →
     NextStatus number w
     = SetStatus number ParcelStatusDelivered
         (set_stdout (stdout w ++ [status_line number ParcelStatusDelivered]) (tick w))
     ∧ (NextStatus number w).1 = None
     ∧ parcel_table (NextStatus number w).2
       = <[number := with_status ParcelStatusDelivered r]> (parcel_table w))
  ∧ (row_status r = ParcelStatusDelivered →
     (NextStatus number w).1 = None
     ∧ parcel_table (NextStatus number w).2 = parcel_table w
     ∧ parcel_seq (NextStatus number w).2 = parcel_seq w
     ∧ stdout (NextStatus number w).2 = stdout w).
Proof.
  intros Hn Hh.
  pose proof (NextStatus_present number w r (healthy_driver_ok _ Hh) Hn) as Hp.
  pose proof (NextStatus_healthy number w r Hh Hn) as Hq.
  split; [|split]; intros Hs; rewrite Hs in Hp, Hq; simpl in Hp, Hq;
    rewrite Hq in Hp |- *; repeat split; try done; by world_simpl.
Qed.

Lemma NextStatus_follows_table_witness :
  (NextStatus 1 one_registered).1 = None
  ∧ parcel_table (NextStatus 1 one_registered).2
    = <[1 := mkRow 7 "sent" "Addr A" "2024-03-07T09:05:00Z"]>
        (parcel_table one_registered).
Proof.
  destruct (NextStatus_follows_table one_registered 1
              (mkRow 7 "registered" "Addr A" "2024-03-07T09:05:00Z"))
    as (Hreg & _ & _).
  - reflexivity.
  - constructor.
  - exact (proj2 (Hreg eq_refl)).
Defined.

(** C7: when no row has the number, NextStatus fails: with
    sql.ErrNoRows, the not-found error Get passes on, whenever the driver
    itself answers, and with the driver's error otherwise.  Either way the
    table, the number sequence and the console are left as they were. *)
Theorem NextStatus_not_found (w : World) (number : Z) :
  parcel_table w !! number = None →
  (driver_ok w → (NextStatus number w).1 = Some ErrNoRows
                 ∧ (Get number w).1.2 = Some ErrNoRows)
  ∧ (∀ msg, next_fault w = Some msg →
       (NextStatus number w).1 = Some (ErrDriver msg))
  ∧ parcel_table (NextStatus number w).2 = parcel_table w
  ∧ parcel_seq (NextStatus number w).2 = parcel_seq w
  ∧ stdout (NextStatus number w).2 = stdout w.
Proof.
  intros Hn. split; [|split].
  - intros Hok. rewrite NextStatus_absent, Get_eq, Hok, Hn by done. done.
  - intros msg Hf. by rewrite (NextStatus_fault _ _ msg).
  - destruct (next_fault w) as [msg|] eqn:Hf.
    + rewrite (NextStatus_fault _ _ msg) by done. by world_simpl.
    + rewrite NextStatus_absent by done. by world_simpl.
Qed.

Lemma NextStatus_not_found_witness :
  (NextStatus 2 one_registered).1 = Some ErrNoRows
  ∧ parcel_table (NextStatus 2 one_registered).2 = parcel_table one_registered.
Proof.
  destruct (NextStatus_not_found one_registered 2) as (Hok & _ & Ht & _).
  - reflexivity.
  - split; [apply Hok; reflexivity | exact Ht].
Defined.

(** C9: three calls of NextStatus on a registered parcel, the driver
    answering throughout: the parcel is sent after the first, delivered
    after the second, and the third returns nil and leaves the table and
    the console as the second left them.  No other row is touched. *)
Theorem NextStatus_three_times (w : World) (number : Z) (r : Row) :
  parcel_table w !! number = Some r →
  row_status r = ParcelStatusRegistered →
  healthy w →
  let w1 := (NextStatus number w).2 in
  let w2 := (NextStatus number w1).2 in
  let w3 := (NextStatus number w2).2 in
  (NextStatus number w).1 = None
  ∧ parcel_table w1 !! number = Some (with_status ParcelStatusSent r)
  ∧ (NextStatus number w1).1 = None
  ∧ parcel_table w2 !! number = Some (with_status ParcelStatusDelivered r)
  ∧ (NextStatus number w2).1 = None
  ∧ parcel_table w3 = parcel_table w2
  ∧ stdout w3 = stdout w2
  ∧ ∀ k, k ≠ number → parcel_table w3 !! k = parcel_table w !! k.
Proof.
  intros Hn Hs Hh w1 w2 w3.
  pose proof (NextStatus_healthy number w r Hh Hn) as H1.
  rewrite Hs in H1. simpl in H1.
  assert (healthy w1) as Hh1.
  { subst w1. rewrite H1. unfold healthy. simpl. by do 2 apply healthy_tick. }
  assert (parcel_table w1 !! number = Some (with_status ParcelStatusSent r)) as Hn1.
  { subst w1. rewrite H1. simpl. apply lookup_insert_eq. }
  pose proof (NextStatus_healthy number w1 _ Hh1 Hn1) as H2. simpl in H2.
  assert (healthy w2) as Hh2.
  { subst w2. rewrite H2. unfold healthy. simpl. by do 2 apply healthy_tick. }
  assert (parcel_table w2 !! number = Some (with_status ParcelStatusDelivered r)) as Hn2.
  { subst w2. rewrite H2. simpl. apply lookup_insert_eq. }
  pose proof (NextStatus_healthy number w2 _ Hh2 Hn2) as H3. simpl in H3.
  assert (parcel_table w3 = parcel_table w2) as Ht3.
  { subst w3. rewrite H3. by world_simpl. }
  repeat split; try done.
  - by rewrite H1.
  - by rewrite H2.
  - by rewrite H3.
  - subst w3. rewrite H3. by world_simpl.
  - intros k Hk. rewrite Ht3. subst w2. rewrite H2. simpl.
    rewrite lookup_insert_ne by done. subst w1. rewrite H1. simpl.
    by rewrite lookup_insert_ne.
Qed.

Lemma NextStatus_three_times_witness :
  let w1 := (NextStatus 1 one_registered).2 in
  let w2 := (NextStatus 1 w1).2 in
  let w3 := (NextStatus 1 w2).2 in
  row_status <$> parcel_table w1 !! 1 = Some "sent"
  ∧ row_status <$> parcel_table w2 !! 1 = Some "delivered"
  ∧ (NextStatus 1 w2).1 = None
  ∧ parcel_table w3 = parcel_table w2.
Proof.
  destruct (NextStatus_three_times one_registered 1
              (mkRow 7 "registered" "Addr A" "2024-03-07T09:05:00Z"))
    as (_ & H1 & _ & H2 & H3 & H4 & _).
  - reflexivity.
  - reflexivity.
  - constructor.
  - simpl. rewrite H1, H2. done.
Defined.

(** C10: a stored status outside the three does not make NextStatus fail:
    the switch falls through with the empty string, which SetStatus then
    stores, and nil is returned.  As long as every stored status is one of
    the three, no call of NextStatus, whatever the driver does, leaves
    another status behind, so the fall-through is not taken. *)
Theorem NextStatus_unknown_status (w : World) (number : Z) :
  (∀ r, parcel_table w !! number = Some r →
        ¬ known_status (row_status r) →
        healthy w →
        NextStatus number w
        = SetStatus number "" (set_stdout (stdout w ++ [status_line number ""]) (tick w))
        ∧ (NextStatus number w).1 = None
        ∧ parcel_table (NextStatus number w).2
          = <[number := with_status "" r]> (parcel_table w))
  ∧ ((∀ k r, parcel_table w !! k = Some r → known_status (row_status r)) →
     ∀ k r, parcel_table (NextStatus number w).2 !! k = Some r →
            known_status (row_status r)).
Proof.
  split.
  - intros r Hn Hk Hh.
    pose proof (NextStatus_present number w r (healthy_driver_ok _ Hh) Hn) as Hp.
    pose proof (NextStatus_healthy number w r Hh Hn) as Hq.
    rewrite (transition_unknown _ Hk) in Hp, Hq.
    rewrite Hq in Hp |- *. done.
  - intros Hall k r'.
    destruct (NextStatus_table number w) as [->|(r & s & Hn & Ht & ->)];
      [apply Hall|].
    rewrite lookup_insert. case_decide; [|apply Hall].
    intros [= <-]. simpl.
    destruct (transition_known _ (Hall _ _ Hn)) as [[_ Htr]|[[_ Htr]|[_ Htr]]];
      rewrite Htr in Ht; simplify_eq; unfold known_status; auto.
Qed.

Lemma NextStatus_unknown_status_witness :
  ((NextStatus 1 one_lost).1 = None
   ∧ parcel_table (NextStatus 1 one_lost).2
     = <[1 := mkRow 7 "" "Addr A" "2024-03-07T09:05:00Z"]> (parcel_table one_lost))
  ∧ ∀ k r, parcel_table (NextStatus 1 one_registered).2 !! k = Some r →
           known_status (row_status r).
Proof.
  split.
  - destruct (NextStatus_unknown_status one_lost 1) as [Hfall _].
    refine (proj2 (Hfall (mkRow 7 "lost" "Addr A" "2024-03-07T09:05:00Z") _ _ _)).
    + reflexivity.
    + intros [H|[H|H]]; discriminate H.
    + constructor.
  - destruct (NextStatus_unknown_status one_registered 1) as [_ Hkeep].
    apply Hkeep. intros k r.
    destruct (decide (k = 1)) as [->|Hk].
    + intros [= <-]. left. reflexivity.
    + unfold one_registered. simpl. rewrite lookup_singleton_ne by done. discriminate.
Defined.

(** ** SetAddress and Delete: the registered-only guard *)

Lemma registered_at_lookup number w r :
  parcel_table w !! number = Some r →
  registered_at number w ↔ String.eqb (row_status r) ParcelStatusRegistered = true.
Proof.
  intros Hn. rewrite registered_at_iff. split.
  - intros (r' & Hr' & Hs). by simplify_eq.
  - intros Hs. by exists r.
Qed.

Lemma SetAddress_table number address w :
  parcel_table (SetAddress number address w).2
  = match next_fault w, parcel_table w !! number with
    | None, Some r =>
        if String.eqb (row_status r) ParcelStatusRegistered
        then <[number := with_address address r]> (parcel_table w)
        else parcel_table w
    | _, _ => parcel_table w
    end.
Proof.
  rewrite SetAddress_eq.
  destruct (next_fault w); world_simpl; [done|].
  by destruct (parcel_table w !! number).
Qed.

Lemma Delete_table number w :
  parcel_table (Delete number w).2
  = match next_fault w, parcel_table w !! number with
    | None, Some r =>
        if String.eqb (row_status r) ParcelStatusRegistered
        then delete number (parcel_table w)
        else parcel_table w
    | _, _ => parcel_table w
    end.
Proof.
  rewrite Delete_eq.
  destruct (next_fault w); world_simpl; [done|].
  by destruct (parcel_table w !! number).
Qed.

Lemma blocked_table {A} number w (changed : Row → A) (same : A) :
  ¬ registered_at number w →
  match parcel_table w !! number with
  | Some r => if String.eqb (row_status r) ParcelStatusRegistered
              then changed r else same
  | None => same
  end = same.
Proof.
  intros Hg. destruct (parcel_table w !! number) as [r|] eqn:Hn; [|done].
  destruct (String.eqb _ _) eqn:Hs; [|done].
  destruct Hg. by apply (registered_at_lookup _ _ r).
Qed.

(** C2: SetAddress, the driver answering, returns nil; it stores the new
    address when the row exists and is registered, and otherwise (no such
    row, or a row that is sent, delivered or in any other status) leaves
    the table as it was.  ChangeAddress is SetAddress, so a sent or
    delivered parcel keeps its row, address included. *)
Theorem SetAddress_registered_only (w : World) (number : Z) (address : string) :
  driver_ok w →
  ChangeAddress number address w = SetAddress number address w
  ∧ (SetAddress number address w).1 = None
  ∧ (∀ r, parcel_table w !! number = Some r →
          row_status r = ParcelStatusRegistered →
          parcel_table (SetAddress number address w).2
          = <[number := with_address address r]> (parcel_table w))
  ∧ (¬ registered_at number w →
     parcel_table (SetAddress number address w).2 = parcel_table w)
  ∧ (∀ r, parcel_table w !! number = Some r →
          row_status r = ParcelStatusSent ∨ row_status r = ParcelStatusDelivered →
          parcel_table (ChangeAddress number address w).2 !! number = Some r)
  ∧ parcel_seq (SetAddress number address w).2 = parcel_seq w.
Proof.
  intros Hok. unfold ChangeAddress.
  rewrite SetAddress_table, SetAddress_eq, Hok.
  repeat split.
  - intros r Hn Hs. by rewrite Hn, Hs.
  - intros Hg. by apply (blocked_table number w (λ r, <[number := _]> _)).
  - intros r Hn Hs. rewrite Hn. by destruct Hs as [-> | ->].
  - by world_simpl.
Qed.

Lemma SetAddress_registered_only_witness :
  (SetAddress 1 "Addr C" one_registered).1 = None
  ∧ parcel_table (SetAddress 1 "Addr C" one_registered).2
    = <[1 := mkRow 7 "registered" "Addr C" "2024-03-07T09:05:00Z"]>
        (parcel_table one_registered)
  ∧ parcel_table (ChangeAddress 1 "Addr C" one_sent).2 !! 1
    = Some (mkRow 7 "sent" "Addr B" "2024-03-07T09:05:00Z").
Proof.
  destruct (SetAddress_registered_only one_registered 1 "Addr C")
    as (_ & Hnil & Hreg & _); [reflexivity|].
  destruct (SetAddress_registered_only one_sent 1 "Addr C")
    as (_ & _ & _ & _ & Hsent & _); [reflexivity|].
  split; [exact Hnil|]. split.
  - apply (Hreg (mkRow 7 "registered" "Addr A" "2024-03-07T09:05:00Z"));
      reflexivity.
  - apply Hsent; [reflexivity | left; reflexivity].
Defined.

(** C4: when the guard of ChangeAddress and Delete does not hold (no row
    with the number, or a row that is not registered), both leave the table
    as it was, and what they return is what the one driver call returned:
    nil whenever the driver answers.  The guard itself never produces an
    error. *)
Theorem guard_blocks_silently (w : World) (number : Z) (address : string) :
  ¬ registered_at number w →
  parcel_table (ChangeAddress number address w).2 = parcel_table w
  ∧ parcel_table (Service_Delete number w).2 = parcel_table w
  ∧ (ChangeAddress number address w).1 = ErrDriver <$> next_fault w
  ∧ (Service_Delete number w).1 = ErrDriver <$> next_fault w
  ∧ (driver_ok w →
     (ChangeAddress number address w).1 = None
     ∧ (Service_Delete number w).1 = None).
Proof.
  intros Hg. unfold ChangeAddress, Service_Delete.
  rewrite SetAddress_table, Delete_table, SetAddress_eq, Delete_eq.
  split; [|split; [|split; [|split]]].
  - destruct (next_fault w); [done|].
    by apply (blocked_table number w (λ r, <[number := _]> _)).
  - destruct (next_fault w); [done|].
    by apply (blocked_table number w (λ _, delete number _)).
  - by destruct (next_fault w).
  - by destruct (next_fault w).
  - intros Hok. by rewrite Hok.
Qed.

Lemma guard_blocks_silently_witness :
  parcel_table (ChangeAddress 1 "Addr C" one_sent).2 = parcel_table one_sent
  ∧ parcel_table (Service_Delete 1 one_sent).2 = parcel_table one_sent
  ∧ (ChangeAddress 1 "Addr C" one_sent).1 = None
  ∧ (Service_Delete 1 one_sent).1 = None.
Proof.
  destruct (guard_blocks_silently one_sent 1 "Addr C")
    as (Ha & Hd & _ & _ & Hnil).
  - intros (r & Hr & Hs). injection Hr as <-. discriminate Hs.
  - destruct (Hnil eq_refl) as [Hna Hnd]. auto.
Defined.

(** ** GetByClient and PrintClientParcels *)

Lemma frame_refl w : frame w w.
Proof. by repeat split. Qed.

Lemma frame_tick w w' : frame (tick w) w' → frame w w'.
Proof.
  intros (Ht & Hs & Ho & Hc & Hf). revert Ht Hs Ho Hc. world_simpl.
  repeat split; auto using tick_faults_elem.
Qed.

Lemma healthy_no_fault w msg : healthy w → Some msg ∈ faults w → False.
Proof. unfold healthy. rewrite Forall_forall. intros Hh Hin. by apply Hh in Hin. Qed.

Lemma parcel_of_row_of_parcel p : parcel_of_row (Number p) (row_of_parcel p) = p.
Proof. by destruct p. Qed.

Lemma row_of_parcel_of_row k r : row_of_parcel (parcel_of_row k r) = r.
Proof. by destruct r. Qed.

Lemma elem_of_matching client t p :
  p ∈ matching client t ↔ t !! Number p = Some (row_of_parcel p) ∧ Client p = client.
Proof.
  unfold matching. rewrite list_elem_of_fmap. split.
  - intros ([k r] & -> & Hin). apply list_elem_of_filter in Hin as [Hc Hin].
    apply elem_of_map_to_list in Hin. simpl in *.
    rewrite row_of_parcel_of_row. split; [done|].
    by apply Is_true_true, Z.eqb_eq in Hc.
  - intros [Hn Hc]. exists (Number p, row_of_parcel p). simpl.
    split; [by rewrite parcel_of_row_of_parcel|].
    apply list_elem_of_filter. split.
    + simpl. apply Is_true_true, Z.eqb_eq. done.
    + by apply elem_of_map_to_list.
Qed.

Lemma NoDup_matching client t : NoDup (matching client t).
Proof.
  unfold matching. apply NoDup_fmap_2_strong.
  - intros [k r] [k' r'] _ _. destruct r, r'. unfold parcel_of_row. simpl.
    intros Heq. by simplify_eq.
  - apply NoDup_filter, NoDup_map_to_list.
Qed.

Lemma read_outcome_tick w expected out :
  read_outcome (tick w) expected out → read_outcome w expected out.
Proof.
  intros [Hfr Hout]. split; [by apply frame_tick|].
  destruct Hout as [?|(msg & ? & ?)]; [by left|].
  right. exists msg. auto using tick_faults_elem.
Qed.

Lemma read_outcome_fault w expected msg :
  next_fault w = Some msg →
  read_outcome w expected ([], Some (ErrDriver msg), tick w).
Proof.
  intros Hf. split; [apply frame_tick, frame_refl|].
  right. exists msg. auto using next_fault_elem.
Qed.

Lemma scan_rows_outcome rows res w :
  read_outcome w (res ++ rows) (scan_rows rows res w).
Proof.
  revert res w. induction rows as [|row rows IH]; intros res w.
  - simpl. split; [apply frame_refl|]. left. by rewrite app_nil_r.
  - simpl. unfold bind, Rows_Scan, bind. rewrite driver_err_eq.
    destruct (next_fault w) as [msg|] eqn:Hf; simpl.
    + by apply read_outcome_fault.
    + apply read_outcome_tick. rewrite (cons_middle row), app_assoc. apply IH.
Qed.

Lemma GetByClient_outcome client w :
  read_outcome w (matching client (parcel_table w)) (GetByClient client w).
Proof.
  unfold GetByClient, Query, bind. rewrite driver_err_eq.
  destruct (next_fault w) as [msg|] eqn:Hf; simpl.
  { by apply read_outcome_fault. }
  apply read_outcome_tick. rewrite <- (tick_table w).
  fold (matching client (parcel_table (tick w))).
  generalize (tick w). clear w Hf. intros w.
  pose proof (scan_rows_outcome (matching client (parcel_table w)) [] w) as Hscan.
  destruct (scan_rows _ _ w) as [[res err] w1].
  destruct Hscan as [Hfr [Hok|(msg & Herr & Hin)]]; simpl in *.
  2: { injection Herr as -> ->. split; [done|]. right. by exists msg. }
  injection Hok as -> ->. unfold Rows_Err. rewrite driver_err_eq.
  destruct Hfr as (Ht & Hs & Ho & Hc & Hf).
  destruct (next_fault w1) as [msg|] eqn:Hf1; simpl.
  - split.
    + revert Ht Hs Ho Hc. repeat split; world_simpl; auto using tick_faults_elem.
    + right. exists msg. auto using next_fault_elem.
  - split; [|by left].
    revert Ht Hs Ho Hc. repeat split; world_simpl; auto using tick_faults_elem.
Qed.

Lemma GetByClient_healthy client w :
  healthy w →
  (GetByClient client w).1 = (matching client (parcel_table w), None)
  ∧ frame w (GetByClient client w).2.
Proof.
  intros Hh. destruct (GetByClient_outcome client w) as [Hfr [?|(msg & _ & Hin)]].
  - done.
  - destruct (healthy_no_fault _ _ Hh Hin).
Qed.

Lemma GetByClient_sound client w p :
  p ∈ (GetByClient client w).1.1 →
  parcel_table w !! Number p = Some (row_of_parcel p) ∧ Client p = client.
Proof.
  destruct (GetByClient_outcome client w) as [_ [Heq|(msg & Heq & _)]];
    rewrite Heq; simpl.
  - apply elem_of_matching.
  - by intros ?%not_elem_of_nil.
Qed.

Lemma print_parcels_eq parcels w :
  print_parcels parcels w
  = (tt, set_stdout (stdout w ++ (parcel_line <$> parcels)) w).
Proof.
  revert w. induction parcels as [|p parcels IH]; intros w; simpl.
  - rewrite app_nil_r. by destruct w.
  - unfold bind, fmt_Print. rewrite IH. simpl.
    by rewrite <- app_assoc.
Qed.

Lemma PrintClientParcels_healthy client w :
  healthy w →
  (PrintClientParcels client w).1 = None
  ∧ stdout (PrintClientParcels client w).2
    = (stdout w ++ ["Посылки клиента " +:+ fmt_d client +:+ ":" +:+ nl]
       ++ (parcel_line <$> matching client (parcel_table w)) ++ [nl])%list
  ∧ parcel_table (PrintClientParcels client w).2 = parcel_table w.
Proof.
  intros Hh. destruct (GetByClient_healthy client w Hh) as [Hget Hfr].
  unfold PrintClientParcels, bind.
  destruct (GetByClient client w) as [[ps err] w1]. simpl in *.
  injection Hget as -> ->. destruct Hfr as (Ht & _ & Ho & _).
  unfold fmt_Print. rewrite print_parcels_eq. simpl.
  rewrite Ho, Ht, <- !app_assoc. done.
Qed.

Lemma PrintClientParcels_error client w e :
  (PrintClientParcels client w).1 = Some e →
  ∃ msg, e = ErrDriver msg ∧ Some msg ∈ faults w.
Proof.
  unfold PrintClientParcels, bind.
  destruct (GetByClient_outcome client w) as [_ Hout].
  destruct (GetByClient client w) as [[ps err] w1]. simpl in *.
  destruct Hout as [[= -> ->]|(msg & [= -> ->] & Hin)].
  - unfold fmt_Print. by rewrite print_parcels_eq.
  - simpl. intros [= <-]. by exists msg.
Qed.

(** C8: the service lists a client's parcels by printing what GetByClient
    returns.  While the driver answers, GetByClient returns, without
    repetition, exactly the stored parcels whose client is the given one
    (none when no row matches, and still nil as error), and
    PrintClientParcels prints a heading, one line for each of them and an
    empty line, returns nil and leaves the table alone.  An error, when
    PrintClientParcels returns one, is an error of the driver. *)
Theorem PrintClientParcels_lists_client (w : World) (client : Z) :
  (healthy w →
   ∃ parcels,
     (GetByClient client w).1 = (parcels, None)
     ∧ NoDup parcels
     ∧ (∀ p, p ∈ parcels ↔
             parcel_table w !! Number p = Some (row_of_parcel p)
             ∧ Client p = client)
     ∧ ((∀ k r, parcel_table w !! k = Some r → row_client r ≠ client) →
        parcels = [])
     ∧ (PrintClientParcels client w).1 = None
     ∧ stdout (PrintClientParcels client w).2
       = (stdout w ++ ["Посылки клиента " +:+ fmt_d client +:+ ":" +:+ nl]
          ++ (parcel_line <$> parcels) ++ [nl])%list
     ∧ parcel_table (PrintClientParcels client w).2 = parcel_table w)
  ∧ (∀ e, (PrintClientParcels client w).1 = Some e →
          ∃ msg, e = ErrDriver msg ∧ Some msg ∈ faults w).
Proof.
  split; [|apply PrintClientParcels_error].
  intros Hh. exists (matching client (parcel_table w)).
  destruct (GetByClient_healthy client w Hh) as [Hget _].
  destruct (PrintClientParcels_healthy client w Hh) as (Hnil & Hout & Ht).
  split; [done|]. split; [apply NoDup_matching|].
  split; [intros p; apply elem_of_matching|]. split; [|done].
  intros Hnone.
  destruct (matching client (parcel_table w)) as [|p ps] eqn:E; [done|].
  assert (p ∈ matching client (parcel_table w)) as Hin
    by (rewrite E; apply list_elem_of_here).
  apply elem_of_matching in Hin as [Hn Hc].
  destruct (Hnone _ _ Hn). by destruct p.
Qed.

Lemma PrintClientParcels_lists_client_witness :
  ∃ parcels,
    (GetByClient 7 one_registered).1 = (parcels, None)
    ∧ (∀ p, p ∈ parcels ↔
            parcel_table one_registered !! Number p = Some (row_of_parcel p)
            ∧ Client p = 7)
    ∧ (PrintClientParcels 7 one_registered).1 = None.
Proof.
  destruct (PrintClientParcels_lists_client one_registered 7) as [Hlist _].
  destruct Hlist as (parcels & Hget & _ & Hmem & _ & Hnil & _); [constructor|].
  exists parcels. auto.
Defined.

(** C3: Delete, the driver answering, returns nil; it removes the row when
    the row exists and is registered, after which GetByClient returns no
    parcel with that number for any client; otherwise it leaves the table
    as it was, and a sent or delivered parcel is still among the parcels
    GetByClient returns for its client. *)
Theorem Delete_registered_only (w : World) (number : Z) :
  healthy w →
  let w' := (Service_Delete number w).2 in
  Service_Delete number w = Delete number w
  ∧ (Delete number w).1 = None
  ∧ (registered_at number w →
     parcel_table w' = delete number (parcel_table w)
     ∧ ∀ client p, p ∈ (GetByClient client w').1.1 → Number p ≠ number)
  ∧ (¬ registered_at number w → parcel_table w' = parcel_table w)
  ∧ (∀ r, parcel_table w !! number = Some r →
          row_status r = ParcelStatusSent ∨ row_status r = ParcelStatusDelivered →
          parcel_table w' !! number = Some r
          ∧ parcel_of_row number r ∈ (GetByClient (row_client r) w').1.1).
Proof.
  intros Hh w'. subst w'. unfold Service_Delete.
  pose proof (healthy_driver_ok _ Hh) as Hok.
  assert (healthy (Delete number w).2) as Hh'.
  { rewrite Delete_eq, Hok. unfold healthy. simpl. by apply healthy_tick. }
  rewrite Delete_table, Hok.
  split; [done|]. split; [by rewrite Delete_eq, Hok|]. split; [|split].
  - intros (r & Hn & Hs). rewrite Hn, Hs. simpl. split; [done|].
    intros client p [Hp _]%GetByClient_sound Heq.
    rewrite Heq, Delete_table, Hok, Hn, Hs in Hp. simpl in Hp.
    by rewrite lookup_delete_eq in Hp.
  - intros Hg. by apply (blocked_table number w (λ _, delete number _)).
  - intros r Hn Hs. rewrite Hn.
    assert (String.eqb (row_status r) ParcelStatusRegistered = false) as ->
      by (by destruct Hs as [-> | ->]).
    split; [done|].
    destruct (GetByClient_healthy (row_client r) _ Hh') as [-> _]. simpl.
    apply elem_of_matching. simpl. rewrite row_of_parcel_of_row.
    split; [|done]. rewrite Delete_table, Hok, Hn.
    by destruct Hs as [-> | ->].
Qed.

Lemma Delete_registered_only_witness :
  (Delete 1 one_registered).1 = None
  ∧ parcel_table (Service_Delete 1 one_registered).2
    = delete 1 (parcel_table one_registered)
  ∧ parcel_table (Service_Delete 1 one_sent).2 !! 1
    = Some (mkRow 7 "sent" "Addr B" "2024-03-07T09:05:00Z").
Proof.
  destruct (Delete_registered_only one_registered 1) as (_ & Hnil & Hreg & _);
    [constructor|].
  destruct (Delete_registered_only one_sent 1) as (_ & _ & _ & _ & Hsent);
    [constructor|].
  split; [exact Hnil|]. split.
  - apply Hreg. eexists. split; reflexivity.
  - apply (Hsent (mkRow 7 "sent" "Addr B" "2024-03-07T09:05:00Z"));
      [reflexivity | left; reflexivity].
Defined.

(** ** Add and Register *)

Lemma foldr_max_ge (a : Z) (l : list Z) :
  a ≤ foldr Z.max a l ∧ ∀ k, k ∈ l → k ≤ foldr Z.max a l.
Proof.
  induction l as [|x l [IHa IHl]]; simpl.
  - split; [lia|]. by intros k ?%not_elem_of_nil.
  - split; [lia|]. intros k [->|Hk]%elem_of_cons; [lia|].
    specialize (IHl k Hk). lia.
Qed.

Lemma next_number_fresh w : parcel_table w !! next_number w = None.
Proof.
  destruct (parcel_table w !! next_number w) as [r|] eqn:Hn; [|done].
  exfalso. apply elem_of_map_to_list in Hn.
  assert (next_number w ∈ (map_to_list (parcel_table w)).*1) as Hin.
  { apply list_elem_of_fmap. by exists (next_number w, r). }
  apply (proj2 (foldr_max_ge (parcel_seq w) _)) in Hin.
  unfold next_number in Hin at 1. lia.
Qed.

Lemma next_number_tick w : next_number (tick w) = next_number w.
Proof. unfold next_number. by world_simpl. Qed.

Lemma Add_eq p w :
  Add p w =
  match next_fault w with
  | Some msg => ((0, Some (ErrDriver msg)), tick w)
  | None =>
      if max_rowid <? next_number w
      then ((0, Some (ErrDriver "database or disk is full")), tick w)
      else match next_fault (tick w) with
           | Some msg => ((0, Some (ErrDriver msg)), tick (inserted (row_of_parcel p) w))
           | None => ((next_number w, None), tick (inserted (row_of_parcel p) w))
           end
  end.
Proof.
  unfold Add, Exec_insert, LastInsertId, bind. rewrite driver_err_eq.
  destruct (next_fault w) as [msg|]; simpl; [done|].
  rewrite next_number_tick. destruct (max_rowid <? next_number w); simpl; [done|].
  rewrite driver_err_eq. rewrite tick_table. fold (inserted (row_of_parcel p) w).
  assert (next_fault (inserted (row_of_parcel p) w) = next_fault (tick w)) as -> by done.
  by destruct (next_fault (tick w)).
Qed.

Lemma format_RFC3339_set t : format_RFC3339 t ≠ "".
Proof.
  unfold format_RFC3339. generalize (pad 4 (year t)). intros s.
  simpl. by destruct s.
Qed.

Lemma Register_eq client address w :
  let parcel :=
    mkParcel 0 client ParcelStatusRegistered address (format_RFC3339 (clock w)) in
  Register client address w =
  match (Add parcel w).1.2 with
  | Some e => ((parcel, Some e), (Add parcel w).2)
  | None =>
      let p := mkParcel (Add parcel w).1.1 client ParcelStatusRegistered address
                        (format_RFC3339 (clock w)) in
      ((p, None),
       set_stdout
         (stdout w ++
            ["Новая посылка № " +:+ fmt_d (Number p) +:+ " на адрес "
             +:+ address +:+ " от клиента с идентификатором "
             +:+ fmt_d client +:+ " зарегистрирована "
             +:+ format_RFC3339 (clock w) +:+ nl])
         (Add parcel w).2)
  end.
Proof.
  intros parcel. unfold Register, time_Now_UTC, bind. fold parcel.
  assert (stdout (Add parcel w).2 = stdout w) as Hout.
  { rewrite Add_eq. destruct (next_fault w); [by world_simpl|].
    destruct (max_rowid <? next_number w); [by world_simpl|].
    destruct (next_fault (tick w)); by world_simpl. }
  destruct (Add parcel w) as [[id [e|]] w1]; simpl in *; [done|].
  unfold fmt_Print. by rewrite Hout.
Qed.

(** C6: Register builds a parcel with status registered and the clock's
    UTC reading, formatted, as CreatedAt, and hands it to Add.  The error
    it returns is always the one Add returned, and on an error the parcel
    comes back with number 0.  On success the returned parcel carries the
    number Add assigned, a number no row had before; the table has gained
    exactly that row; CreatedAt is not empty; and Get on that number, the
    driver answering, returns the same parcel.  Register does succeed
    whenever the driver answers and the numbers are not used up. *)
Theorem Register_spec (w : World) (client : Z) (address : string) :
  let parcel :=
    mkParcel 0 client ParcelStatusRegistered address (format_RFC3339 (clock w)) in
  let out := Register client address w in
  out.1.2 = (Add parcel w).1.2
  ∧ (∀ e, (Add parcel w).1.2 = Some e →
          out.1 = (parcel, Some e)
          ∧ parcel_table out.2 = parcel_table (Add parcel w).2)
  ∧ (out.1.2 = None →
     ∃ number,
       (Add parcel w).1 = (number, None)
       ∧ out.1.1 = mkParcel number client ParcelStatusRegistered address
                            (format_RFC3339 (clock w))
       ∧ CreatedAt out.1.1 ≠ ""
       ∧ parcel_table w !! number = None
       ∧ parcel_table out.2 = <[number := row_of_parcel out.1.1]> (parcel_table w)
       ∧ (driver_ok out.2 → (Get number out.2).1 = (out.1.1, None)))
  ∧ (healthy w → next_number w ≤ max_rowid → out.1.2 = None).
Proof.
  intros parcel out. subst out. rewrite Register_eq. fold parcel.
  split; [by destruct (Add parcel w).1.2|].
  split; [by intros e ->|].
  split.
  - rewrite Add_eq.
    destruct (next_fault w); [done|].
    destruct (max_rowid <? next_number w); [done|].
    destruct (next_fault (tick w)) eqn:Hf2; [done|].
    simpl. intros _. exists (next_number w).
    split; [done|]. split; [done|]. split; [apply format_RFC3339_set|].
    split; [apply next_number_fresh|]. split; [by world_simpl|].
    intros Hok. rewrite Get_eq, Hok. world_simpl.
    by rewrite lookup_insert_eq.
  - intros Hh Hmax. rewrite Add_eq.
    rewrite (healthy_driver_ok _ Hh), (healthy_driver_ok _ (healthy_tick _ Hh)).
    by destruct (Z.ltb_spec max_rowid (next_number w)); [lia|].
Qed.

Lemma Register_spec_witness :
  ∃ number,
    (Register 7 "Addr A" empty_world).1.1
    = mkParcel number 7 "registered" "Addr A" "2024-03-07T09:05:00Z"
    ∧ (Get number (Register 7 "Addr A" empty_world).2).1
      = ((Register 7 "Addr A" empty_world).1.1, None).
Proof.
  destruct (Register_spec empty_world 7 "Addr A") as (_ & _ & Hok & Hrun).
  destruct Hok as (number & _ & Hp & _ & _ & _ & Hget).
  - apply Hrun; [constructor | vm_compute; discriminate].
  - exists number. split; [exact Hp | apply Hget; reflexivity].
Defined.

(** ** The lifecycle over runs of the service *)

Lemma Register_table client address w :
  parcel_table (Register client address w).2 = parcel_table w
  ∨ ∃ number created,
      parcel_table w !! number = None
      ∧ parcel_table (Register client address w).2
        = <[number := mkRow client ParcelStatusRegistered address created]>
            (parcel_table w).
Proof.
  rewrite Register_eq. simpl. rewrite Add_eq.
  destruct (next_fault w); [left; by world_simpl|].
  destruct (max_rowid <? next_number w); [left; by world_simpl|].
  right. exists (next_number w), (format_RFC3339 (clock w)).
  split; [apply next_number_fresh|].
  destruct (next_fault (tick w)); by world_simpl.
Qed.

Lemma PrintClientParcels_table client w :
  parcel_table (PrintClientParcels client w).2 = parcel_table w.
Proof.
  unfold PrintClientParcels, bind.
  destruct (GetByClient_outcome client w) as [(Ht & _) _].
  destruct (GetByClient client w) as [[ps [e|]] w1]; simpl in *; [done|].
  unfold fmt_Print. by rewrite print_parcels_eq.
Qed.

Lemma run_call_rows c w k r :
  all_known w →
  parcel_table w !! k = Some r →
  row_step r (parcel_table (run_call c w).2 !! k).
Proof.
  intros Hall Hk. destruct c as [client address|client|number|number address|number];
    simpl.
  - unfold bind.
    destruct (Register_table client address w) as [Ht|(n & created & Hn & Ht)];
      destruct (Register client address w) as [[p e] w1]; simpl in *; rewrite Ht.
    + rewrite Hk. constructor.
    + rewrite lookup_insert_ne by congruence. rewrite Hk. constructor.
  - rewrite PrintClientParcels_table, Hk. constructor.
  - destruct (NextStatus_table number w) as [->|(r0 & s & Hn & Ht & ->)].
    { rewrite Hk. constructor. }
    rewrite lookup_insert. case_decide as Heq; [|rewrite Hk; constructor].
    subst k. rewrite Hk in Hn. injection Hn as <-.
    destruct (transition_known _ (Hall _ _ Hk)) as [[Hs Htr]|[[Hs Htr]|[Hs Htr]]];
      rewrite Htr in Ht; simplify_eq; by constructor.
  - unfold ChangeAddress. rewrite SetAddress_table.
    destruct (next_fault w); [rewrite Hk; constructor|].
    destruct (parcel_table w !! number) as [r0|] eqn:Hn; [|rewrite Hk; constructor].
    destruct (String.eqb_spec (row_status r0) ParcelStatusRegistered) as [Hs|_];
      [|rewrite Hk; constructor].
    rewrite lookup_insert. case_decide as Heq; [|rewrite Hk; constructor].
    subst k. simplify_eq. by constructor.
  - unfold Service_Delete. rewrite Delete_table.
    destruct (next_fault w); [rewrite Hk; constructor|].
    destruct (parcel_table w !! number) as [r0|] eqn:Hn; [|rewrite Hk; constructor].
    destruct (String.eqb_spec (row_status r0) ParcelStatusRegistered) as [Hs|_];
      [|rewrite Hk; constructor].
    rewrite lookup_delete. case_decide as Heq; [|rewrite Hk; constructor].
    subst k. simplify_eq. by constructor.
Qed.

Lemma run_call_known c w : all_known w → all_known (run_call c w).2.
Proof.
  intros Hall k r' Hk'.
  destruct c as [client address|client|number|number address|number]; simpl in Hk'.
  - unfold bind in Hk'.
    destruct (Register_table client address w) as [Ht|(n & created & Hn & Ht)];
      destruct (Register client address w) as [[p e] w1]; simpl in *;
      rewrite Ht in Hk'; [by eapply Hall|].
    rewrite lookup_insert in Hk'. case_decide; [|by eapply Hall].
    simplify_eq. by left.
  - rewrite PrintClientParcels_table in Hk'. by eapply Hall.
  - destruct (parcel_table w !! k) as [r|] eqn:Hk.
    + pose proof (run_call_rows (CallNextStatus number) w k r Hall Hk) as Hst.
      simpl in Hst. rewrite Hk' in Hst. pose proof (Hall _ _ Hk) as Hkn.
      inversion Hst; subst; unfold known_status; simpl; auto.
    + destruct (NextStatus_table number w) as [Ht|(r0 & s & Hn & _ & Ht)];
        rewrite Ht in Hk'; [congruence|].
      rewrite lookup_insert in Hk'. case_decide; congruence.
  - destruct (parcel_table w !! k) as [r|] eqn:Hk.
    + pose proof (run_call_rows (CallChangeAddress number address) w k r Hall Hk) as Hst.
      simpl in Hst. rewrite Hk' in Hst. pose proof (Hall _ _ Hk) as Hkn.
      inversion Hst; subst; unfold known_status; simpl; auto.
    + unfold ChangeAddress in Hk'. rewrite SetAddress_table in Hk'.
      destruct (next_fault w); [congruence|].
      destruct (parcel_table w !! number) as [r0|] eqn:Hn; [|congruence].
      destruct (String.eqb _ _); [|congruence].
      rewrite lookup_insert in Hk'. case_decide; congruence.
  - unfold Service_Delete in Hk'. rewrite Delete_table in Hk'.
    destruct (next_fault w); [by eapply Hall|].
    destruct (parcel_table w !! number) as [r0|] eqn:Hn; [|by eapply Hall].
    destruct (String.eqb _ _); [|by eapply Hall].
    rewrite lookup_delete in Hk'. case_decide; [done|by eapply Hall].
Qed.

Lemma step_rows w w' k r :
  all_known w → step w w' → parcel_table w !! k = Some r →
  row_step r (parcel_table w' !! k).
Proof.
  intros Hall (c & fs & t & ->) Hk. by apply run_call_rows.
Qed.

Lemma step_known w w' : all_known w → step w w' → all_known w'.
Proof.
  intros Hall (c & fs & t & ->). by apply run_call_known.
Qed.

Lemma rtc_step_known w w' : all_known w → rtc step w w' → all_known w'.
Proof. intros Hall Hrtc. induction Hrtc; eauto using step_known. Qed.

Lemma reachable_known w : reachable w → all_known w.
Proof.
  intros (w0 & [Ht _] & Hrtc). apply (rtc_step_known w0); [|done].
  intros k r. by rewrite Ht, lookup_empty.
Qed.

Lemma rank_registered : status_rank ParcelStatusRegistered = 0%nat.
Proof. reflexivity. Qed.

Lemma rank_sent : status_rank ParcelStatusSent = 1%nat.
Proof. reflexivity. Qed.

Lemma rank_delivered : status_rank ParcelStatusDelivered = 2%nat.
Proof. reflexivity. Qed.

Lemma rank_le_2 s : (status_rank s ≤ 2)%nat.
Proof. unfold status_rank. repeat (destruct (String.eqb _ _); [lia|]). lia. Qed.

Lemma rank_zero_registered s :
  known_status s → status_rank s = 0%nat → s = ParcelStatusRegistered.
Proof. by intros [-> | [-> | ->]]. Qed.

Lemma row_later_step r o o' :
  known_status (row_status r) →
  row_later r o →
  (∀ r', o = Some r' → row_step r' o') →
  row_later r o'.
Proof.
  intros Hkn Hlater Hstep. destruct o as [r'|]; simpl in Hlater.
  - destruct Hlater as [Hrank Hdel].
    pose proof (Hstep r' eq_refl) as Hst.
    inversion Hst as [|address Hs|Hs|Hs|Hs]; subst; simpl.
    + done.
    + split; [done|]. intros Hd. rewrite (Hdel Hd) in Hs. by rewrite Hd in Hs.
    + rewrite Hs, rank_registered in Hrank. rewrite rank_sent. split; [lia|].
      intros Hd. rewrite (Hdel Hd) in Hs. by rewrite Hd in Hs.
    + rewrite rank_delivered. split; [apply rank_le_2|].
      intros Hd. rewrite (Hdel Hd) in Hs. by rewrite Hd in Hs.
    + rewrite Hs, rank_registered in Hrank.
      apply rank_zero_registered; [done|lia].
  - destruct o' as [r''|]; simpl; [|done].
    rewrite Hlater, rank_registered. split; [lia|done].
Qed.

Lemma rtc_step_rows w w' :
  all_known w → rtc step w w' →
  ∀ k r, parcel_table w !! k = Some r → row_later r (parcel_table w' !! k).
Proof.
  intros Hall Hrtc. revert w' Hrtc.
  apply (rtc_ind_r (λ w', ∀ k r, parcel_table w !! k = Some r →
                                 row_later r (parcel_table w' !! k))).
  - intros k r Hk. rewrite Hk. simpl. auto.
  - intros w1 w2 H12 Hstep IH k r Hk.
    apply (row_later_step r (parcel_table w1 !! k)); [by eapply Hall|by apply IH|].
    intros r' Hk1. apply (step_rows w1); [|done|done].
    by apply (rtc_step_known w).
Qed.

(** C5: in every store the service can reach from an empty one, and for
    everything the service does from there on: every stored status is one
    of the three; a parcel's status never moves back; a delivered parcel
    keeps its whole row (status, address and all) and is never deleted;
    only a parcel that was registered can be gone; and one call moves a
    status by at most one stage, registered to sent or sent to delivered,
    or deletes a parcel that is registered. *)
Theorem lifecycle_forward_only (w w' : World) :
  reachable w →
  rtc step w w' →
  reachable w'
  ∧ all_known w'
  ∧ (∀ k r r', parcel_table w !! k = Some r →
               parcel_table w' !! k = Some r' →
               (status_rank (row_status r) ≤ status_rank (row_status r'))%nat)
  ∧ (∀ k r, parcel_table w !! k = Some r →
            row_status r = ParcelStatusDelivered →
            parcel_table w' !! k = Some r)
  ∧ (∀ k r, parcel_table w !! k = Some r →
            parcel_table w' !! k = None →
            row_status r = ParcelStatusRegistered)
  ∧ (∀ w'' k r', step w' w'' →
       parcel_table w' !! k = Some r' →
       match parcel_table w'' !! k with
       | Some r'' =>
           row_status r'' = row_status r'
           ∨ (row_status r' = ParcelStatusRegistered
              ∧ row_status r'' = ParcelStatusSent)
           ∨ (row_status r' = ParcelStatusSent
              ∧ row_status r'' = ParcelStatusDelivered)
       | None => row_status r' = ParcelStatusRegistered
       end).
Proof.
  intros Hreach Hrtc.
  pose proof (reachable_known _ Hreach) as Hall.
  pose proof (rtc_step_known _ _ Hall Hrtc) as Hall'.
  pose proof (rtc_step_rows _ _ Hall Hrtc) as Hrows.
  split.
  { destruct Hreach as (w0 & He & H0). exists w0. split; [done|].
    by etrans. }
  split; [done|]. split; [|split; [|split]].
  - intros k r r' Hk Hk'. specialize (Hrows k r Hk). rewrite Hk' in Hrows.
    apply Hrows.
  - intros k r Hk Hd. specialize (Hrows k r Hk).
    destruct (parcel_table w' !! k) as [r'|]; simpl in Hrows.
    + f_equal. by apply Hrows.
    + by rewrite Hd in Hrows.
  - intros k r Hk Hk'. specialize (Hrows k r Hk). by rewrite Hk' in Hrows.
  - intros w'' k r' Hstep Hk'.
    pose proof (step_rows _ _ _ _ Hall' Hstep Hk') as Hst.
    inversion Hst; simpl; auto.
Qed.

Lemma lifecycle_forward_only_witness :
  all_known after_advance
  ∧ ∀ k r r', parcel_table after_register !! k = Some r →
              parcel_table after_advance !! k = Some r' →
              (status_rank (row_status r) ≤ status_rank (row_status r'))%nat.
Proof.
  destruct (lifecycle_forward_only after_register after_advance)
    as (_ & Hknown & Hrank & _).
  - exists empty_world. split; [split; reflexivity|].
    apply rtc_once. exists (CallRegister 7 "Addr A"), [], (clock empty_world).
    reflexivity.
  - apply rtc_once. exists (CallNextStatus 1), [], (clock empty_world).
    reflexivity.
  - split; [exact Hknown | exact Hrank].
Defined.

(** ** The demonstration *)

(** On an empty store [main] leaves parcel 1, sent and with the changed
    address; parcel 2 was registered and deleted again, and its number is
    not handed out a second time. *)
Example main_on_empty_store :
  map_to_list (parcel_table (main empty_world).2)
  = [(1, mkRow 1 "sent" "Саратов, д. Верхние Зори, ул. Козлова, д. 25"
               "2024-03-07T09:05:00Z")]
  ∧ parcel_seq (main empty_world).2 = 2
  ∧ next_number (main empty_world).2 = 3
  ∧ length (stdout (main empty_world).2) = 12%nat.
Proof. vm_compute. done. Qed.

(** With a driver that fails at the fifth call, the write of NextStatus,
    [main] prints that error and stops: parcel 1 stays registered. *)
Example main_stops_on_error :
  let w := set_faults [None; None; None; None; Some "disk I/O error"] empty_world in
  row_status <$> parcel_table (main w).2 !! 1 = Some "registered"
  ∧ last (stdout (main w).2) = Some ("disk I/O error" +:+ nl).
Proof. vm_compute. done. Qed.

(** * Further properties of the store and the service *)

(** ** Add and Get *)

Lemma SetStatus_table number status w :
  parcel_table (SetStatus number status w).2
  = match next_fault w with
    | None => alter (with_status status) number (parcel_table w)
    | Some _ => parcel_table w
    end.
Proof. rewrite SetStatus_eq. destruct (next_fault w); by world_simpl. Qed.

Lemma Add_table p w :
  parcel_table (Add p w).2 = parcel_table w
  ∨ parcel_table w !! next_number w = None
    ∧ parcel_table (Add p w).2
      = <[next_number w := row_of_parcel p]> (parcel_table w).
Proof.
  rewrite Add_eq. destruct (next_fault w); [left; by world_simpl|].
  destruct (max_rowid <? next_number w); [left; by world_simpl|].
  right. split; [apply next_number_fresh|].
  destruct (next_fault (tick w)); by world_simpl.
Qed.

(** X1: an error from Add does not mean that nothing was stored.  When
    Exec fails, Add returns 0 with the error and the table is as before;
    when Exec goes through and LastInsertId fails, Add (and with it
    Register, which then returns its parcel with number 0) still returns 0
    with the error, but the row is in the table. *)
Theorem Add_error_after_insert (w : World) (p : Parcel) (msg : string) :
  (next_fault w = Some msg →
   (Add p w).1 = (0, Some (ErrDriver msg))
   ∧ parcel_table (Add p w).2 = parcel_table w)
  ∧ (driver_ok w → next_number w ≤ max_rowid → next_fault (tick w) = Some msg →
     (Add p w).1 = (0, Some (ErrDriver msg))
     ∧ parcel_table (Add p w).2
       = <[next_number w := row_of_parcel p]> (parcel_table w)
     ∧ ∀ client address,
         (Register client address w).1.2 = Some (ErrDriver msg)
         ∧ Number (Register client address w).1.1 = 0
         ∧ parcel_table (Register client address w).2 !! next_number w
           = Some (mkRow client ParcelStatusRegistered address
                         (format_RFC3339 (clock w)))).
Proof.
  split.
  - intros Hf. rewrite Add_eq, Hf. by world_simpl.
  - intros Hok Hmax Hf2.
    assert (∀ q, Add q w = ((0, Some (ErrDriver msg)),
                            tick (inserted (row_of_parcel q) w))) as Hadd.
    { intros q. rewrite Add_eq, Hok, Hf2.
      by destruct (Z.ltb_spec max_rowid (next_number w)); [lia|]. }
    rewrite Hadd. split; [done|]. split; [by world_simpl|].
    intros client address. rewrite Register_eq, Hadd. simpl.
    split; [done|]. split; [done|]. world_simpl. by rewrite lookup_insert_eq.
Qed.

Lemma Add_error_after_insert_witness :
  (Add (mkParcel 0 7 "registered" "Addr Z" "now") one_registered_failing).1
  = (0, Some (ErrDriver "disk I/O error"))
  ∧ parcel_table
      (Add (mkParcel 0 7 "registered" "Addr Z" "now") one_registered_failing).2 !! 2
    = Some (mkRow 7 "registered" "Addr Z" "now").
Proof.
  destruct (Add_error_after_insert one_registered_failing
              (mkParcel 0 7 "registered" "Addr Z" "now") "disk I/O error")
    as [_ Hlate].
  destruct Hlate as (Hres & Ht & _);
    [reflexivity | vm_compute; discriminate | reflexivity |].
  split; [exact Hres|]. rewrite Ht. reflexivity.
Defined.

(** X2: what Add stores, Get gives back.  When Add returns nil, the number
    it returns was free before, every other row is as it was, and Get on
    that number (the driver answering) returns Add's argument with only the
    number replaced: the number of the argument plays no part, and client,
    status, address and creation time are stored as given, whatever they
    are. *)
Theorem Add_Get_round_trip (w : World) (p : Parcel) (id : Z) :
  (Add p w).1 = (id, None) →
  parcel_table w !! id = None
  ∧ id ≤ max_rowid
  ∧ (∀ k, k ≠ id → parcel_table (Add p w).2 !! k = parcel_table w !! k)
  ∧ (driver_ok (Add p w).2 →
     (Get id (Add p w).2).1
     = (mkParcel id (Client p) (Status p) (Address p) (CreatedAt p), None)).
Proof.
  rewrite Add_eq.
  destruct (next_fault w); [done|].
  destruct (Z.ltb_spec max_rowid (next_number w)); [done|].
  destruct (next_fault (tick w)); [done|].
  simpl. intros [= <-].
  split; [apply next_number_fresh|]. split; [done|]. split.
  - intros k Hk. world_simpl. by rewrite lookup_insert_ne.
  - intros Hok. rewrite Get_eq, Hok. world_simpl. by rewrite lookup_insert_eq.
Qed.

Lemma Add_Get_round_trip_witness :
  (Get 2 (Add (mkParcel 99 5 "anything" "Addr Z" "now") one_registered).2).1
  = (mkParcel 2 5 "anything" "Addr Z" "now", None).
Proof.
  destruct (Add_Get_round_trip one_registered
              (mkParcel 99 5 "anything" "Addr Z" "now") 2) as (_ & _ & _ & Hget).
  - reflexivity.
  - apply Hget. reflexivity.
Defined.

(** ** SetStatus and NextStatus *)

(** X3: SetStatus checks nothing.  With the driver answering it returns
    nil; a row with that number gets the given status, whatever the old
    and the new status are (at the store a delivered parcel can be set
    back to registered, and any text is accepted), and Get then returns
    the parcel with that status and its other fields as they were; every
    other row stays; and without such a row the table is unchanged. *)
Theorem SetStatus_unconditional (w : World) (number : Z) (status : string) :
  driver_ok w →
  let w' := (SetStatus number status w).2 in
  (SetStatus number status w).1 = None
  ∧ (∀ r, parcel_table w !! number = Some r →
          parcel_table w' = <[number := with_status status r]> (parcel_table w)
          ∧ (driver_ok w' →
             (Get number w').1
             = (mkParcel number (row_client r) status (row_address r)
                         (row_created_at r), None)))
  ∧ (∀ k, k ≠ number → parcel_table w' !! k = parcel_table w !! k)
  ∧ (parcel_table w !! number = None → parcel_table w' = parcel_table w).
Proof.
  intros Hok w'. subst w'. rewrite SetStatus_table, SetStatus_eq, Hok.
  split; [done|]. split; [|split].
  - intros r Hn. rewrite (alter_present _ _ _ r) by done. split; [done|].
    intros Hok'. rewrite Get_eq, Hok'. world_simpl.
    by rewrite lookup_insert_eq.
  - intros k Hk. by rewrite lookup_alter_ne.
  - intros Hn. apply map_eq. intros k. rewrite lookup_alter.
    case_decide; [subst; by rewrite Hn|done].
Qed.

Lemma SetStatus_unconditional_witness :
  (SetStatus 1 "registered" one_delivered).1 = None
  ∧ (Get 1 (SetStatus 1 "registered" one_delivered).2).1
    = (mkParcel 1 7 "registered" "Addr B" "2024-03-07T09:05:00Z", None).
Proof.
  destruct (SetStatus_unconditional one_delivered 1 "registered")
    as (Hnil & Hrow & _); [reflexivity|].
  split; [exact Hnil|].
  apply (Hrow (mkRow 7 "delivered" "Addr B" "2024-03-07T09:05:00Z"));
    reflexivity.
Defined.

(** X4: NextStatus announces the new status before it writes it.  When
    the lookup goes through, the status is one that has a successor (or
    is unknown), and the write then fails, NextStatus returns the write's
    error and the table is as before, but the line saying that the parcel
    has the new status has been printed. *)
Theorem NextStatus_prints_before_write
    (w : World) (number : Z) (r : Row) (s msg : string) :
  driver_ok w →
  parcel_table w !! number = Some r →
  transition (row_status r) = Some s →
  next_fault (tick w) = Some msg →
  (NextStatus number w).1 = Some (ErrDriver msg)
  ∧ parcel_table (NextStatus number w).2 = parcel_table w
  ∧ stdout (NextStatus number w).2 = (stdout w ++ [status_line number s])%list.
Proof.
  intros Hok Hn Ht Hf. rewrite (NextStatus_present _ _ r), Ht, SetStatus_eq by done.
  assert (next_fault (set_stdout (stdout w ++ [status_line number s]) (tick w))
          = Some msg) as -> by done.
  by world_simpl.
Qed.

Lemma NextStatus_prints_before_write_witness :
  (NextStatus 1 one_registered_failing).1 = Some (ErrDriver "disk I/O error")
  ∧ parcel_table (NextStatus 1 one_registered_failing).2
    = parcel_table one_registered_failing
  ∧ stdout (NextStatus 1 one_registered_failing).2 = [status_line 1 "sent"].
Proof.
  apply (NextStatus_prints_before_write one_registered_failing 1
           (mkRow 7 "registered" "Addr A" "2024-03-07T09:05:00Z")
           "sent" "disk I/O error"); reflexivity.
Defined.

(** X5: NextStatus touches nothing but one status.  Whatever the store
    holds and whatever the driver does, it neither adds nor removes a row,
    it leaves every row with another number exactly as it was, and in the
    row with the given number it leaves client, address and creation time
    alone; the number sequence is unchanged as well. *)
Theorem NextStatus_only_status (w : World) (number k : Z) :
  match parcel_table w !! k, parcel_table (NextStatus number w).2 !! k with
  | Some r, Some r' =>
      row_client r' = row_client r
      ∧ row_address r' = row_address r
      ∧ row_created_at r' = row_created_at r
      ∧ (k ≠ number → r' = r)
  | None, None => True
  | _, _ => False
  end
  ∧ parcel_seq (NextStatus number w).2 = parcel_seq w.
Proof.
  split.
  - destruct (NextStatus_table number w) as [->|(r0 & s & Hn & _ & ->)].
    + by destruct (parcel_table w !! k).
    + rewrite lookup_insert. case_decide as Heq.
      * subst k. rewrite Hn. by repeat split.
      * by destruct (parcel_table w !! k).
  - destruct (next_fault w) as [msg|] eqn:Hf.
    { rewrite (NextStatus_fault _ _ msg) by done. by world_simpl. }
    destruct (parcel_table w !! number) as [r|] eqn:Hn.
    2: { rewrite NextStatus_absent by done. by world_simpl. }
    rewrite (NextStatus_present _ _ r) by done.
    destruct (transition (row_status r)) as [s|]; [|by world_simpl].
    rewrite SetStatus_eq.
    destruct (next_fault (set_stdout _ _)); by world_simpl.
Qed.

(** X6: once NextStatus has gone through on a parcel whose status is one
    of the three, the parcel is sent or delivered, and from then on neither
    ChangeAddress nor Delete changes the table. *)
Theorem advanced_parcel_is_locked
    (w : World) (number : Z) (r : Row) (address : string) :
  parcel_table w !! number = Some r →
  known_status (row_status r) →
  healthy w →
  let w' := (NextStatus number w).2 in
  (∃ r', parcel_table w' !! number = Some r'
         ∧ (row_status r' = ParcelStatusSent
            ∨ row_status r' = ParcelStatusDelivered))
  ∧ parcel_table (ChangeAddress number address w').2 = parcel_table w'
  ∧ parcel_table (Service_Delete number w').2 = parcel_table w'.
Proof.
  intros Hn Hkn Hh w'.
  assert (∃ r', parcel_table w' !! number = Some r'
                ∧ (row_status r' = ParcelStatusSent
                   ∨ row_status r' = ParcelStatusDelivered)) as (r' & Hn' & Hs').
  { subst w'. rewrite (NextStatus_healthy _ _ r) by done.
    destruct (transition_known _ Hkn) as [[_ ->]|[[_ ->]|[Hd ->]]]; world_simpl.
    - eexists. rewrite lookup_insert_eq. split; [done|]. by left.
    - eexists. rewrite lookup_insert_eq. split; [done|]. by right.
    - exists r. split; [done|]. by right. }
  assert (String.eqb (row_status r') ParcelStatusRegistered = false) as Hne
    by (by destruct Hs' as [-> | ->]).
  split; [by exists r'|].
  unfold ChangeAddress, Service_Delete.
  rewrite SetAddress_table, Delete_table, Hn', Hne.
  by destruct (next_fault w').
Qed.

Lemma advanced_parcel_is_locked_witness :
  let w' := (NextStatus 1 one_registered).2 in
  parcel_table (ChangeAddress 1 "Addr C" w').2 = parcel_table w'
  ∧ parcel_table (Service_Delete 1 w').2 = parcel_table w'.
Proof.
  destruct (advanced_parcel_is_locked one_registered 1
              (mkRow 7 "registered" "Addr A" "2024-03-07T09:05:00Z") "Addr C")
    as (_ & Ha & Hd).
  - reflexivity.
  - left. reflexivity.
  - constructor.
  - split; [exact Ha | exact Hd].
Defined.

(** ** Reading: GetByClient and PrintClientParcels *)

(** X7: GetByClient returns all or nothing.  Whatever the driver does, it
    leaves table, number sequence and console alone, and it returns either
    nil together with exactly the client's parcels, or a driver error
    together with no parcel at all: rows scanned before the failure are
    dropped, never returned in part. *)
Theorem GetByClient_all_or_nothing (w : World) (client : Z) :
  let out := GetByClient client w in
  parcel_table out.2 = parcel_table w
  ∧ parcel_seq out.2 = parcel_seq w
  ∧ stdout out.2 = stdout w
  ∧ ((out.1.2 = None
      ∧ ∀ p, p ∈ out.1.1 ↔
             parcel_table w !! Number p = Some (row_of_parcel p)
             ∧ Client p = client)
     ∨ (out.1.1 = []
        ∧ ∃ msg, out.1.2 = Some (ErrDriver msg) ∧ Some msg ∈ faults w)).
Proof.
  intros out. subst out.
  destruct (GetByClient_outcome client w) as [(Ht & Hs & Ho & _) Hout].
  split; [done|]. split; [done|]. split; [done|].
  destruct Hout as [->|(msg & -> & Hin)]; simpl.
  - left. split; [done|]. intros p. apply elem_of_matching.
  - right. split; [done|]. by exists msg.
Qed.

(** X8: when PrintClientParcels returns an error it has printed nothing,
    not even the heading, and table and number sequence are as before;
    the error is the driver's. *)
Theorem PrintClientParcels_error_prints_nothing
    (w : World) (client : Z) (e : error) :
  (PrintClientParcels client w).1 = Some e →
  stdout (PrintClientParcels client w).2 = stdout w
  ∧ parcel_table (PrintClientParcels client w).2 = parcel_table w
  ∧ parcel_seq (PrintClientParcels client w).2 = parcel_seq w
  ∧ ∃ msg, e = ErrDriver msg ∧ Some msg ∈ faults w.
Proof.
  intros He. split; [|split; [apply PrintClientParcels_table|split]].
  - revert He. unfold PrintClientParcels, bind.
    destruct (GetByClient_outcome client w) as [(_ & _ & Ho & _) _].
    destruct (GetByClient client w) as [[ps [e'|]] w1]; simpl in *; [done|].
    unfold fmt_Print. by rewrite print_parcels_eq.
  - revert He. unfold PrintClientParcels, bind.
    destruct (GetByClient_outcome client w) as [(_ & Hs & _) _].
    destruct (GetByClient client w) as [[ps [e'|]] w1]; simpl in *; [done|].
    unfold fmt_Print. by rewrite print_parcels_eq.
  - by apply (PrintClientParcels_error client w).
Qed.

Lemma PrintClientParcels_error_prints_nothing_witness :
  stdout (PrintClientParcels 7 (set_faults [None; Some "disk I/O error"] one_sent)).2
  = [].
Proof.
  apply (PrintClientParcels_error_prints_nothing
           (set_faults [None; Some "disk I/O error"] one_sent) 7
           (ErrDriver "disk I/O error")).
  reflexivity.
Defined.

(** ** ChangeAddress and Delete *)

(** X9: of two address changes in a row the last one wins.  With the
    driver answering both times, changing the address of a parcel to one
    value and then to another leaves the table exactly as changing it to
    the second value alone (and leaves it untouched when the parcel is
    missing or not registered). *)
Theorem ChangeAddress_last_wins (w : World) (number : Z) (a b : string) :
  driver_ok w →
  driver_ok (ChangeAddress number a w).2 →
  parcel_table (ChangeAddress number b (ChangeAddress number a w).2).2
  = parcel_table (ChangeAddress number b w).2.
Proof.
  intros Hok Hok'. unfold ChangeAddress in *.
  rewrite (SetAddress_table number b), Hok'.
  rewrite !SetAddress_table, Hok.
  destruct (parcel_table w !! number) as [r|] eqn:Hn; [|by rewrite Hn].
  destruct (String.eqb (row_status r) ParcelStatusRegistered) eqn:Hs.
  - rewrite lookup_insert_eq. simpl. rewrite Hs. by rewrite insert_insert_eq.
  - by rewrite Hn, Hs.
Qed.

Lemma ChangeAddress_last_wins_witness :
  parcel_table (ChangeAddress 1 "Addr C" (ChangeAddress 1 "Addr B" one_registered).2).2
  = parcel_table (ChangeAddress 1 "Addr C" one_registered).2.
Proof.
  apply (ChangeAddress_last_wins one_registered 1 "Addr B" "Addr C"); reflexivity.
Defined.

(** X10: a deleted parcel is gone for every method.  After Delete has gone
    through on a registered parcel, and as long as the driver answers, Get
    and NextStatus on its number fail with sql.ErrNoRows, and ChangeAddress
    and a second Delete return nil and leave the table as the first Delete
    left it. *)
Theorem deleted_parcel_is_gone (w : World) (number : Z) (address : string) :
  registered_at number w →
  driver_ok w →
  let w' := (Service_Delete number w).2 in
  parcel_table w' !! number = None
  ∧ (driver_ok w' →
     (Get number w').1 = (Parcel_zero, Some ErrNoRows)
     ∧ (NextStatus number w').1 = Some ErrNoRows
     ∧ (ChangeAddress number address w').1 = None
     ∧ parcel_table (ChangeAddress number address w').2 = parcel_table w'
     ∧ (Service_Delete number w').1 = None
     ∧ parcel_table (Service_Delete number w').2 = parcel_table w').
Proof.
  intros (r & Hn & Hs) Hok w'.
  assert (parcel_table w' !! number = None) as Hgone.
  { subst w'. unfold Service_Delete. rewrite Delete_table, Hok, Hn, Hs. simpl.
    apply lookup_delete_eq. }
  split; [done|]. intros Hok'.
  unfold ChangeAddress, Service_Delete.
  rewrite SetAddress_table, Delete_table, SetAddress_eq, Delete_eq, Get_eq.
  rewrite NextStatus_absent by done. by rewrite Hok', Hgone.
Qed.

Lemma deleted_parcel_is_gone_witness :
  (Get 1 (Service_Delete 1 one_registered).2).1 = (Parcel_zero, Some ErrNoRows)
  ∧ (NextStatus 1 (Service_Delete 1 one_registered).2).1 = Some ErrNoRows.
Proof.
  destruct (deleted_parcel_is_gone one_registered 1 "Addr C") as [_ Hafter].
  - eexists. split; reflexivity.
  - reflexivity.
  - destruct Hafter as (Hget & Hnext & _); [reflexivity|].
    split; [exact Hget | exact Hnext].
Defined.

(** X11: Register followed by Delete of the returned number gives the
    table back.  When Register returns nil and the driver answers Delete,
    the table after the two calls is the table before them; only the
    number sequence has moved on. *)
Theorem Register_Delete_round_trip (w : World) (client : Z) (address : string) :
  (Register client address w).1.2 = None →
  driver_ok (Register client address w).2 →
  let p := (Register client address w).1.1 in
  let w' := (Service_Delete (Number p) (Register client address w).2).2 in
  parcel_table w' = parcel_table w
  ∧ parcel_seq w' = Number p
  ∧ parcel_seq w < Number p.
Proof.
  rewrite Register_eq. simpl. rewrite Add_eq.
  destruct (next_fault w); [done|].
  destruct (max_rowid <? next_number w); [done|].
  destruct (next_fault (tick w)); [done|].
  simpl. intros _ Hok. unfold Service_Delete.
  rewrite Delete_table, Delete_eq, Hok. world_simpl.
  rewrite lookup_insert_eq. simpl.
  split; [|split; [done|]].
  - rewrite delete_insert_eq. apply delete_id, next_number_fresh.
  - unfold next_number.
    pose proof (foldr_max_ge (parcel_seq w) (map_to_list (parcel_table w)).*1) as [? _].
    lia.
Qed.

Lemma Register_Delete_round_trip_witness :
  let p := (Register 7 "Addr Z" one_sent).1.1 in
  parcel_table (Service_Delete (Number p) (Register 7 "Addr Z" one_sent).2).2
  = parcel_table one_sent.
Proof.
  destruct (Register_Delete_round_trip one_sent 7 "Addr Z") as (Ht & _);
    [reflexivity | reflexivity | exact Ht].
Defined.

(** ** What the service's calls leave alone *)

Lemma run_call_Register client address w :
  (run_call (CallRegister client address) w).2 = (Register client address w).2.
Proof. simpl. unfold bind. by destruct (Register client address w) as [[p e] w1]. Qed.

(** X12: no call of the service changes whose parcel it is or when it
    was created, and an address changes only on a registered parcel, which
    stays registered.  This holds in every store whose statuses are among
    the three, for every call and whatever the driver does. *)
Theorem calls_keep_identity (w : World) (c : call) (k : Z) (r r' : Row) :
  all_known w →
  parcel_table w !! k = Some r →
  parcel_table (run_call c w).2 !! k = Some r' →
  row_client r' = row_client r
  ∧ row_created_at r' = row_created_at r
  ∧ (row_address r' ≠ row_address r →
     row_status r = ParcelStatusRegistered
     ∧ row_status r' = ParcelStatusRegistered).
Proof.
  intros Hall Hk Hk'.
  pose proof (run_call_rows c w k r Hall Hk) as Hst. rewrite Hk' in Hst.
  inversion Hst; subst; simpl; repeat split; try done; intros Hne; by destruct Hne.
Qed.

Lemma calls_keep_identity_witness :
  row_client (mkRow 7 "registered" "Addr C" "2024-03-07T09:05:00Z") = 7
  ∧ row_created_at (mkRow 7 "registered" "Addr C" "2024-03-07T09:05:00Z")
    = "2024-03-07T09:05:00Z".
Proof.
  destruct (calls_keep_identity one_registered (CallChangeAddress 1 "Addr C") 1
              (mkRow 7 "registered" "Addr A" "2024-03-07T09:05:00Z")
              (mkRow 7 "registered" "Addr C" "2024-03-07T09:05:00Z"))
    as (Hc & Ht & _).
  - intros k r. destruct (decide (k = 1)) as [->|Hk].
    + intros [= <-]. left. reflexivity.
    + unfold one_registered. simpl. rewrite lookup_singleton_ne by done. discriminate.
  - reflexivity.
  - reflexivity.
  - split; [exact Hc | exact Ht].
Defined.

(** X13: only Register adds a row and only Delete removes one.  For every
    call and whatever the driver does: a number that had no row and has one
    afterwards was assigned by a Register call, and a number that had a row
    and has none afterwards was deleted by a Delete call for that very
    number, and its parcel was registered. *)
Theorem rows_added_and_removed (w : World) (c : call) (k : Z) :
  (parcel_table w !! k = None →
   is_Some (parcel_table (run_call c w).2 !! k) →
   ∃ client address, c = CallRegister client address)
  ∧ (is_Some (parcel_table w !! k) →
     parcel_table (run_call c w).2 !! k = None →
     c = CallDelete k ∧ registered_at k w).
Proof.
  destruct c as [client address|client|number|number address|number].
  - split; [by eauto|]. intros [r Hk]. rewrite run_call_Register.
    destruct (Register_table client address w) as [->|(n & created & Hn & ->)];
      [by rewrite Hk|].
    rewrite lookup_insert_ne by congruence. by rewrite Hk.
  - simpl. rewrite PrintClientParcels_table.
    split; [by intros -> [? ?]|by intros [? ->]].
  - simpl. destruct (NextStatus_table number w) as [->|(r0 & s & Hn & _ & ->)].
    { split; [by intros -> [? ?]|by intros [? ->]]. }
    rewrite lookup_insert. case_decide as Heq.
    + subst k. split; [by rewrite Hn|done].
    + split; [by intros -> [? ?]|by intros [? ->]].
  - simpl. unfold ChangeAddress. rewrite SetAddress_table.
    destruct (next_fault w); [split; [by intros -> [? ?]|by intros [? ->]]|].
    destruct (parcel_table w !! number) as [r0|] eqn:Hn;
      [|split; [by intros -> [? ?]|by intros [? ->]]].
    destruct (String.eqb _ _); [|split; [by intros -> [? ?]|by intros [? ->]]].
    rewrite lookup_insert. case_decide as Heq.
    + subst k. split; [by rewrite Hn|done].
    + split; [by intros -> [? ?]|by intros [? ->]].
  - simpl. unfold Service_Delete. rewrite Delete_table.
    destruct (next_fault w); [split; [by intros -> [? ?]|by intros [? ->]]|].
    destruct (parcel_table w !! number) as [r0|] eqn:Hn;
      [|split; [by intros -> [? ?]|by intros [? ->]]].
    destruct (String.eqb_spec (row_status r0) ParcelStatusRegistered) as [Hs|_];
      [|split; [by intros -> [? ?]|by intros [? ->]]].
    rewrite lookup_delete. case_decide as Heq.
    + subst k. split; [by intros _ [? ?]|]. intros _ _. split; [done|]. by exists r0.
    + split; [by intros -> [? ?]|by intros [? ->]].
Qed.

Lemma rows_added_and_removed_witness :
  CallDelete 1 = CallDelete 1 ∧ registered_at 1 one_registered.
Proof.
  destruct (rows_added_and_removed one_registered (CallDelete 1) 1) as [_ Hremoved].
  apply Hremoved; [by eexists | reflexivity].
Defined.

(** ** The demonstration in main *)

Lemma Register_number client address w :
  (Register client address w).1.2 = None →
  Number (Register client address w).1.1 = next_number w
  ∧ parcel_table (Register client address w).2
    = <[next_number w := mkRow client ParcelStatusRegistered address
                               (format_RFC3339 (clock w))]> (parcel_table w).
Proof.
  rewrite Register_eq. simpl. rewrite Add_eq.
  destruct (next_fault w); [done|].
  destruct (max_rowid <? next_number w); [done|].
  destruct (next_fault (tick w)); [done|]. by world_simpl.
Qed.

Lemma keeps_table t w w' :
  parcel_table w' = parcel_table w → keeps t w → keeps t w'.
Proof. unfold keeps. intros ->. auto. Qed.

Lemma keeps_other t w w' number :
  t !! number = None →
  (∀ k, k ≠ number → parcel_table w' !! k = parcel_table w !! k) →
  keeps t w → keeps t w'.
Proof.
  intros Hn Hother Hkeeps k r Hk. rewrite Hother; [by apply Hkeeps|].
  intros ->. congruence.
Qed.

Lemma SetAddress_other number address w k :
  k ≠ number →
  parcel_table (SetAddress number address w).2 !! k = parcel_table w !! k.
Proof.
  intros Hk. rewrite SetAddress_table. destruct (next_fault w); [done|].
  destruct (parcel_table w !! number); [|done].
  destruct (String.eqb _ _); [|done]. by rewrite lookup_insert_ne.
Qed.

Lemma Delete_other number w k :
  k ≠ number →
  parcel_table (Delete number w).2 !! k = parcel_table w !! k.
Proof.
  intros Hk. rewrite Delete_table. destruct (next_fault w); [done|].
  destruct (parcel_table w !! number); [|done].
  destruct (String.eqb _ _); [|done]. by rewrite lookup_delete_ne.
Qed.

Lemma NextStatus_other number w k :
  k ≠ number →
  parcel_table (NextStatus number w).2 !! k = parcel_table w !! k.
Proof.
  intros Hk. destruct (NextStatus_table number w) as [->|(r & s & _ & _ & ->)];
    [done|]. by rewrite lookup_insert_ne.
Qed.

Lemma Register_keeps t client address w :
  keeps t w →
  keeps t (Register client address w).2
  ∧ ((Register client address w).1.2 = None →
     t !! Number (Register client address w).1.1 = None).
Proof.
  intros Hkeeps.
  assert (t !! next_number w = None) as Hfresh.
  { destruct (t !! next_number w) as [r|] eqn:Hn; [|done].
    apply Hkeeps in Hn. by rewrite next_number_fresh in Hn. }
  split.
  - destruct (Register_table client address w) as [Ht|(n & created & Hn & Ht)].
    + by apply (keeps_table t w).
    + apply (keeps_other t w _ n); [|by intros k Hk; rewrite Ht, lookup_insert_ne|done].
      destruct (t !! n) as [r|] eqn:Htn; [|done].
      apply Hkeeps in Htn. congruence.
  - intros Hnil. by destruct (Register_number client address w Hnil) as [-> _].
Qed.

Lemma or_stop_keeps t err rest w :
  keeps t w →
  (err = None → keeps t (rest w).2) →
  keeps t (or_stop err rest w).2.
Proof. intros Hkeeps Hrest. destruct err; [done|by apply Hrest]. Qed.

(** X14: main leaves every parcel that was in the store before it
    started exactly as it was, whatever the driver does and wherever an
    error stops it: it only ever changes, advances or deletes parcels that
    it has registered itself. *)
Theorem main_keeps_existing (w : World) (k : Z) (r : Row) :
  parcel_table w !! k = Some r →
  parcel_table (main w).2 !! k = Some r.
Proof.
  revert k r. change (keeps (parcel_table w) (main w).2).
  set (t := parcel_table w). assert (keeps t w) as H0 by (by intros k r).
  unfold main, bind.
  destruct (Register_keeps t 1 "Псков, д. Пушкина, ул. Колотушкина, д. 5" w H0)
    as [H1 Hn1].
  destruct (Register 1 _ w) as [[p e1] w1]. simpl in H1, Hn1.
  apply or_stop_keeps; [done|]. intros Hnil. specialize (Hn1 Hnil). clear Hnil.
  set (n1 := Number p) in *.
  pose proof (keeps_other t w1 _ n1 Hn1
                (SetAddress_other n1 "Саратов, д. Верхние Зори, ул. Козлова, д. 25" w1) H1)
    as H2.
  unfold ChangeAddress at 1. destruct (SetAddress n1 _ w1) as [e2 w2]. simpl in H2.
  apply or_stop_keeps; [done|]. intros _.
  pose proof (keeps_other t w2 _ n1 Hn1 (NextStatus_other n1 w2) H2) as H3.
  destruct (NextStatus n1 w2) as [e3 w3]. simpl in H3.
  apply or_stop_keeps; [done|]. intros _.
  pose proof (keeps_table t w3 _ (PrintClientParcels_table 1 w3) H3) as H4.
  destruct (PrintClientParcels 1 w3) as [e4 w4]. simpl in H4.
  apply or_stop_keeps; [done|]. intros _.
  pose proof (keeps_other t w4 _ n1 Hn1 (Delete_other n1 w4) H4) as H5.
  unfold Service_Delete at 1. destruct (Delete n1 w4) as [e5 w5]. simpl in H5.
  apply or_stop_keeps; [done|]. intros _.
  pose proof (keeps_table t w5 _ (PrintClientParcels_table 1 w5) H5) as H6.
  destruct (PrintClientParcels 1 w5) as [e6 w6]. simpl in H6.
  apply or_stop_keeps; [done|]. intros _.
  destruct (Register_keeps t 1 "Псков, д. Пушкина, ул. Колотушкина, д. 5" w6 H6)
    as [H7 Hn2].
  destruct (Register 1 _ w6) as [[p2 e7] w7]. simpl in H7, Hn2.
  apply or_stop_keeps; [done|]. intros Hnil. specialize (Hn2 Hnil). clear Hnil.
  set (n2 := Number p2) in *.
  pose proof (keeps_other t w7 _ n2 Hn2 (Delete_other n2 w7) H7) as H8.
  unfold Service_Delete at 1. destruct (Delete n2 w7) as [e8 w8]. simpl in H8.
  apply or_stop_keeps; [done|]. intros _.
  pose proof (keeps_table t w8 _ (PrintClientParcels_table 1 w8) H8) as H9.
  destruct (PrintClientParcels 1 w8) as [e9 w9]. simpl in H9.
  apply or_stop_keeps; [done|]. intros _. done.
Qed.

Lemma main_keeps_existing_witness :
  parcel_table (main one_registered_failing).2 !! 1
  = Some (mkRow 7 "registered" "Addr A" "2024-03-07T09:05:00Z").
Proof. apply (main_keeps_existing one_registered_failing). reflexivity. Defined.

Lemma foldr_max_le (a m : Z) (l : list Z) :
  a ≤ m → (∀ k, k ∈ l → k ≤ m) → foldr Z.max a l ≤ m.
Proof.
  intros Ha. induction l as [|x l IH]; simpl; intros Hl; [done|].
  assert (x ≤ m) by (apply Hl, list_elem_of_here).
  assert (foldr Z.max a l ≤ m) by (apply IH; intros k Hk; apply Hl; by right).
  lia.
Qed.

Lemma next_number_succ w w' r :
  parcel_table w' = <[next_number w := r]> (parcel_table w) →
  parcel_seq w' = next_number w →
  next_number w' = next_number w + 1.
Proof.
  intros Ht Hs. unfold next_number at 1. rewrite Ht, Hs.
  pose proof (foldr_max_ge (next_number w)
                (map_to_list (<[next_number w := r]> (parcel_table w))).*1) as [Hge _].
  assert (foldr Z.max (next_number w)
            (map_to_list (<[next_number w := r]> (parcel_table w))).*1
          ≤ next_number w) as Hle; [|lia].
  apply foldr_max_le; [lia|]. intros k Hk.
  apply list_elem_of_fmap in Hk as ([k' r'] & -> & Hin). simpl.
  apply elem_of_map_to_list in Hin. rewrite lookup_insert in Hin.
  case_decide; [lia|].
  apply elem_of_map_to_list in Hin.
  assert (k' ∈ (map_to_list (parcel_table w)).*1) as Hin'.
  { apply list_elem_of_fmap. by exists (k', r'). }
  apply (proj2 (foldr_max_ge (parcel_seq w) _)) in Hin'.
  unfold next_number. lia.
Qed.

Lemma settled_Register w t s client address :
  settled w t s → next_number w ≤ max_rowid →
  (Register client address w).1
  = (mkParcel (next_number w) client ParcelStatusRegistered address
              (format_RFC3339 (clock w)), None)
  ∧ settled (Register client address w).2
      (<[next_number w := mkRow client ParcelStatusRegistered address
                                (format_RFC3339 (clock w))]> t)
      (next_number w).
Proof.
  intros (Hh & <- & <-) Hmax. rewrite Register_eq. simpl. rewrite Add_eq.
  rewrite (healthy_driver_ok _ Hh), (healthy_driver_ok _ (healthy_tick _ Hh)).
  destruct (Z.ltb_spec max_rowid (next_number w)); [lia|]. simpl.
  split; [done|]. split; [|by world_simpl].
  unfold healthy. simpl. rewrite tick_faults. simpl.
  apply healthy_tick in Hh. apply healthy_tick in Hh.
  by rewrite <- tick_faults.
Qed.

Lemma settled_SetAddress w t s number address :
  settled w t s →
  (SetAddress number address w).1 = None
  ∧ settled (SetAddress number address w).2
      match t !! number with
      | Some r => if String.eqb (row_status r) ParcelStatusRegistered
                  then <[number := with_address address r]> t else t
      | None => t
      end s.
Proof.
  intros (Hh & <- & <-). rewrite SetAddress_eq, (healthy_driver_ok _ Hh).
  split; [done|]. split; [|by world_simpl].
  unfold healthy. simpl. by apply healthy_tick.
Qed.

Lemma settled_Delete w t s number :
  settled w t s →
  (Delete number w).1 = None
  ∧ settled (Delete number w).2
      match t !! number with
      | Some r => if String.eqb (row_status r) ParcelStatusRegistered
                  then delete number t else t
      | None => t
      end s.
Proof.
  intros (Hh & <- & <-). rewrite Delete_eq, (healthy_driver_ok _ Hh).
  split; [done|]. split; [|by world_simpl].
  unfold healthy. simpl. by apply healthy_tick.
Qed.

Lemma settled_NextStatus w t s number r :
  settled w t s → t !! number = Some r →
  (NextStatus number w).1 = None
  ∧ settled (NextStatus number w).2
      match transition (row_status r) with
      | Some s' => <[number := with_status s' r]> t
      | None => t
      end s.
Proof.
  intros (Hh & <- & <-) Hn. rewrite (NextStatus_healthy _ _ r) by done.
  destruct (transition (row_status r)).
  - split; [done|]. split; [|by world_simpl].
    unfold healthy. simpl. by do 2 apply healthy_tick.
  - split; [done|]. split; [by apply healthy_tick|by world_simpl].
Qed.

Lemma settled_PrintClientParcels w t s client :
  settled w t s →
  (PrintClientParcels client w).1 = None
  ∧ settled (PrintClientParcels client w).2 t s.
Proof.
  intros (Hh & <- & <-).
  destruct (PrintClientParcels_healthy client w Hh) as (Hnil & _ & Ht).
  split; [done|]. split; [|split; [done|]].
  - unfold PrintClientParcels, bind.
    destruct (GetByClient_outcome client w) as [(_ & _ & _ & _ & Hf) _].
    assert (healthy (GetByClient client w).2) as Hh1.
    { unfold healthy in *. rewrite Forall_forall in *. auto. }
    destruct (GetByClient client w) as [[ps [e|]] w1]; simpl in *; [done|].
    unfold fmt_Print. by rewrite print_parcels_eq.
  - unfold PrintClientParcels, bind.
    destruct (GetByClient_outcome client w) as [(_ & Hs & _) _].
    destruct (GetByClient client w) as [[ps [e|]] w1]; simpl in *; [done|].
    unfold fmt_Print. by rewrite print_parcels_eq.
Qed.

(** X15: what main does when nothing fails.  With the driver answering
    and two numbers left, main runs through all its nine steps and its net
    effect on the store is one new row: the parcel it registered first,
    for client 1, now sent and with the changed address.  Deleting that
    sent parcel in main's fifth step returns nil and removes nothing, so
    main goes on; the second parcel it registers is deleted again, and the
    number sequence ends two further. *)
Theorem main_net_effect (w : World) :
  healthy w →
  next_number w + 1 ≤ max_rowid →
  parcel_table (main w).2
  = <[next_number w :=
        mkRow 1 ParcelStatusSent "Саратов, д. Верхние Зори, ул. Козлова, д. 25"
              (format_RFC3339 (clock w))]> (parcel_table w)
  ∧ parcel_seq (main w).2 = next_number w + 1.
Proof.
  intros Hh Hmax.
  assert (settled w (parcel_table w) (parcel_seq w)) as H0 by done.
  set (t := parcel_table w) in *. set (n1 := next_number w) in *.
  cut (settled (main w).2
         (<[n1 := mkRow 1 ParcelStatusSent
                        "Саратов, д. Верхние Зори, ул. Козлова, д. 25"
                        (format_RFC3339 (clock w))]> t) (n1 + 1));
    [by intros (_ & -> & ->)|].
  unfold main, bind.
  (* 1: Register *)
  destruct (settled_Register w _ _ 1 "Псков, д. Пушкина, ул. Колотушкина, д. 5" H0)
    as [E1 H1]; [fold n1; lia|]. fold n1 in E1, H1.
  destruct (Register 1 _ w) as [[p e1] w1]. simpl in E1, H1.
  injection E1 as -> ->. simpl.
  assert (next_number w1 = n1 + 1) as Hnext1.
  { destruct H1 as (_ & Ht1 & Hs1). by apply (next_number_succ w w1 _ Ht1). }
  (* 2: ChangeAddress *)
  destruct (settled_SetAddress w1 _ _ n1 "Саратов, д. Верхние Зори, ул. Козлова, д. 25" H1)
    as [E2 H2].
  rewrite lookup_insert_eq in H2. simpl in H2. rewrite insert_insert_eq in H2.
  unfold ChangeAddress at 1. destruct (SetAddress n1 _ w1) as [e2 w2].
  simpl in E2, H2. subst e2. simpl.
  (* 3: NextStatus *)
  destruct (settled_NextStatus w2 _ _ n1 _ H2 (lookup_insert_eq _ _ _)) as [E3 H3].
  simpl in H3. rewrite insert_insert_eq in H3.
  destruct (NextStatus n1 w2) as [e3 w3]. simpl in E3, H3. subst e3. simpl.
  (* 4: PrintClientParcels *)
  destruct (settled_PrintClientParcels w3 _ _ 1 H3) as [E4 H4].
  destruct (PrintClientParcels 1 w3) as [e4 w4]. simpl in E4, H4. subst e4. simpl.
  (* 5: Delete of the sent parcel *)
  destruct (settled_Delete w4 _ _ n1 H4) as [E5 H5].
  rewrite lookup_insert_eq in H5. simpl in H5.
  unfold Service_Delete at 1. destruct (Delete n1 w4) as [e5 w5].
  simpl in E5, H5. subst e5. simpl.
  (* 6: PrintClientParcels *)
  destruct (settled_PrintClientParcels w5 _ _ 1 H5) as [E6 H6].
  destruct (PrintClientParcels 1 w5) as [e6 w6]. simpl in E6, H6. subst e6. simpl.
  (* 7: Register *)
  assert (next_number w6 = n1 + 1) as Hnext6.
  { destruct H1 as (_ & Ht1 & Hs1). destruct H6 as (_ & Ht6 & Hs6).
    apply (next_number_succ w w6 _ Ht6 Hs6). }
  pose proof (next_number_fresh w6) as Hfresh6.
  destruct (settled_Register w6 _ _ 1 "Псков, д. Пушкина, ул. Колотушкина, д. 5" H6)
    as [E7 H7]; [lia|].
  rewrite Hnext6 in E7, H7, Hfresh6.
  destruct H6 as (_ & Ht6 & _). rewrite Ht6 in Hfresh6.
  destruct (Register 1 _ w6) as [[p2 e7] w7]. simpl in E7, H7.
  injection E7 as -> ->. simpl.
  (* 8: Delete of the registered parcel *)
  destruct (settled_Delete w7 _ _ (n1 + 1) H7) as [E8 H8].
  rewrite lookup_insert_eq in H8. simpl in H8.
  rewrite delete_insert_eq, (delete_id _ _ Hfresh6) in H8.
  unfold Service_Delete at 1. destruct (Delete (n1 + 1) w7) as [e8 w8].
  simpl in E8, H8. subst e8. simpl.
  (* 9: PrintClientParcels *)
  destruct (settled_PrintClientParcels w8 _ _ 1 H8) as [E9 H9].
  destruct (PrintClientParcels 1 w8) as [e9 w9]. simpl in E9, H9. subst e9. simpl.
  exact H9.
Qed.

Lemma main_net_effect_witness :
  parcel_table (main one_sent).2
  = <[2 := mkRow 1 "sent" "Саратов, д. Верхние Зори, ул. Козлова, д. 25"
                 "2024-03-07T09:05:00Z"]> (parcel_table one_sent)
  ∧ parcel_seq (main one_sent).2 = 3.
Proof.
  apply (main_net_effect one_sent); [constructor | vm_compute; discriminate].
Defined.

(** X16: a parcel that has just been registered can be readdressed.  When
    Register returns nil and the driver answers the next two calls,
    ChangeAddress on the returned number returns nil and Get then returns
    the registered parcel with the new address and nothing else changed. *)
Theorem Register_ChangeAddress_Get
    (w : World) (client : Z) (address newAddress : string) :
  (Register client address w).1.2 = None →
  let p := (Register client address w).1.1 in
  let w1 := (Register client address w).2 in
  let w2 := (ChangeAddress (Number p) newAddress w1).2 in
  driver_ok w1 →
  driver_ok w2 →
  (ChangeAddress (Number p) newAddress w1).1 = None
  ∧ (Get (Number p) w2).1
    = (mkParcel (Number p) client ParcelStatusRegistered newAddress (CreatedAt p),
       None).
Proof.
  intros Hnil p w1 w2 Hok1 Hok2.
  destruct (Register_number client address w Hnil) as [Hnum Ht].
  assert (CreatedAt p = format_RFC3339 (clock w)) as Hcreated.
  { subst p. revert Hnil. rewrite Register_eq. simpl.
    by destruct (Add _ w).1.2. }
  fold p in Hnum. fold w1 in Ht.
  assert (parcel_table w2 !! Number p
          = Some (mkRow client ParcelStatusRegistered newAddress (CreatedAt p)))
    as Hrow.
  { subst w2. unfold ChangeAddress. rewrite SetAddress_table, Hok1, Ht, Hnum.
    rewrite lookup_insert_eq. simpl. rewrite lookup_insert_eq.
    by rewrite Hcreated. }
  split.
  - unfold ChangeAddress. by rewrite SetAddress_eq, Hok1.
  - by rewrite Get_eq, Hok2, Hrow.
Qed.

Lemma Register_ChangeAddress_Get_witness :
  (Get 1 (ChangeAddress 1 "Addr B" (Register 7 "Addr A" empty_world).2).2).1
  = (mkParcel 1 7 "registered" "Addr B" "2024-03-07T09:05:00Z", None).
Proof.
  destruct (Register_ChangeAddress_Get empty_world 7 "Addr A" "Addr B")
    as [_ Hget]; [reflexivity | reflexivity | reflexivity | exact Hget].
Defined.
